(** * Rocket launch animation: the progress-to-state timeline and the exhaust pool

    A shallow embedding of [src/components/ThreeScene.tsx]: the numeric helpers
    ([lerp], [easeInOutCubic], [easeInOutQuint]), the phase dispatch of
    [animate], the exhaust particle update [updateExhaust] and the camera
    smoothing step.

    JavaScript numbers are IEEE doubles; they are idealised here as real
    numbers, so every statement below is about exact arithmetic.  The scene
    graph objects that [animate] mutates (rocket, boosters, fairings, satellite,
    solar panels, the three visibility flags) and the closure variable
    [orbitTime] are gathered in one record [Scene] that a tick takes and
    returns. *)

From Stdlib Require Import ZArith Reals Lra Lia Psatz List Bool String Ascii DecimalString.
Import ListNotations.
Open Scope string_scope.
Open Scope R_scope.

Set Warnings "-abstract-large-number".

(** ** Numeric helpers *)

(** [const lerp = (start, end, alpha) => start * (1 - alpha) + end * alpha] *)
Definition lerp (start stop alpha : R) : R := start * (1 - alpha) + stop * alpha.

(** [t < 0.5 ? 4 * t * t * t : 1 - Math.pow(-2 * t + 2, 3) / 2] *)
Definition easeInOutCubic (t : R) : R :=
  if Rlt_dec t 0.5 then 4 * t * t * t else 1 - (-2 * t + 2) ^ 3 / 2.

(** [t < 0.5 ? 16 * t * t * t * t * t : 1 - Math.pow(-2 * t + 2, 5) / 2] *)
Definition easeInOutQuint (t : R) : R :=
  if Rlt_dec t 0.5 then 16 * t * t * t * t * t else 1 - (-2 * t + 2) ^ 5 / 2.

(** The comparisons of the source, as booleans. *)
Definition Rltb (a b : R) : bool := if Rlt_dec a b then true else false.
Definition Rleb (a b : R) : bool := if Rle_dec a b then true else false.

(** ** Scene state *)

Record Vec3 : Type := mkVec3 { vx : R; vy : R; vz : R }.

(** [this.x += (v.x - this.x) * alpha], component by component. *)
Definition vlerp (a b : Vec3) (alpha : R) : Vec3 :=
  mkVec3 (vx a + (vx b - vx a) * alpha)
         (vy a + (vy b - vy a) * alpha)
         (vz a + (vz b - vz a) * alpha).

(** [target.lerpVectors(v1, v2, alpha)]: [v1 + (v2 - v1) * alpha]. *)
Definition lerpVectors (v1 v2 : Vec3) (alpha : R) : Vec3 :=
  mkVec3 (vx v1 + (vx v2 - vx v1) * alpha)
         (vy v1 + (vy v2 - vy v1) * alpha)
         (vz v1 + (vz v2 - vz v1) * alpha).

Definition vadd (a b : Vec3) : Vec3 :=
  mkVec3 (vx a + vx b) (vy a + vy b) (vz a + vz b).

(** A booster group: its position and its roll, the fields [animate] writes. *)
Record Booster : Type := mkBooster { b_pos : Vec3; b_rotz : R }.

(** A fairing half: [position.x] and [rotation.z] are the fields written. *)
Record Fairing : Type := mkFairing { f_posx : R; f_rotz : R }.

Record Satellite : Type := mkSatellite {
  sat_visible : bool;
  sat_pos : Vec3;
  sat_rotx : R;
  sat_roty : R
}.

Record Scene : Type := mkScene {
  rocketPos : Vec3;          (* rocketGroup.position *)
  booster0 : Booster;        (* boosters[0] *)
  booster1 : Booster;        (* boosters[1] *)
  fairingL : Fairing;
  fairingR : Fairing;
  satellite : Satellite;     (* satelliteGroup *)
  panel0 : R;                (* solarPanels[0].rotation.y *)
  panel1 : R;                (* solarPanels[1].rotation.y *)
  groundVisible : bool;      (* groundGroup.visible *)
  earthVisible : bool;       (* earthGroup.visible *)
  starsVisible : bool;       (* stars.visible *)
  orbitTime : R              (* let orbitTime = 0 *)
}.

Record MissionData : Type := mkMission {
  phase : string;
  altitude : R;
  velocity : R
}.

(** What one run of the phase dispatch leaves behind: the mutated scene, the
    local [exhaustIntensity] and [missionData], and [primarySubject]
    ([true] when it was switched to the satellite). *)
Record PhaseOut : Type := mkOut {
  scene : Scene;
  exhaustIntensity : R;
  mission : MissionData;
  subjectIsSatellite : bool
}.

Definition earthRadius : R := 50.
Definition launchpadY : R := earthRadius + 3.
Definition groundLaunchY : R := 0.
Definition stageSep : R := 0.3.

(** The scene as the set-up code builds it: rocket on the ground, boosters at
    [(x, 7, 0)], fairings unrotated, satellite hidden at the origin, panels
    folded at [±π/2]. *)
Definition initialScene : Scene :=
  mkScene (mkVec3 0 0 0)
          (mkBooster (mkVec3 (-3.5) 7 0) 0)
          (mkBooster (mkVec3 3.5 7 0) 0)
          (mkFairing 0 0) (mkFairing 0 0)
          (mkSatellite false (mkVec3 0 0 0) 0 0)
          (PI / 2) (- PI / 2)
          true true true
          0.

(** *** Field updates *)

Definition setRocketY (y : R) (s : Scene) : Scene :=
  mkScene (mkVec3 (vx (rocketPos s)) y (vz (rocketPos s)))
          (booster0 s) (booster1 s) (fairingL s) (fairingR s) (satellite s)
          (panel0 s) (panel1 s)
          (groundVisible s) (earthVisible s) (starsVisible s) (orbitTime s).

Definition setVisibility (g e st : bool) (s : Scene) : Scene :=
  mkScene (rocketPos s)
          (booster0 s) (booster1 s) (fairingL s) (fairingR s) (satellite s)
          (panel0 s) (panel1 s) g e st (orbitTime s).

Definition setBoosters (b0 b1 : Booster) (s : Scene) : Scene :=
  mkScene (rocketPos s) b0 b1 (fairingL s) (fairingR s) (satellite s)
          (panel0 s) (panel1 s)
          (groundVisible s) (earthVisible s) (starsVisible s) (orbitTime s).

Definition setFairings (l r : Fairing) (s : Scene) : Scene :=
  mkScene (rocketPos s) (booster0 s) (booster1 s) l r (satellite s)
          (panel0 s) (panel1 s)
          (groundVisible s) (earthVisible s) (starsVisible s) (orbitTime s).

Definition setSatellite (sat : Satellite) (s : Scene) : Scene :=
  mkScene (rocketPos s) (booster0 s) (booster1 s) (fairingL s) (fairingR s) sat
          (panel0 s) (panel1 s)
          (groundVisible s) (earthVisible s) (starsVisible s) (orbitTime s).

Definition setPanels (p0 p1 : R) (s : Scene) : Scene :=
  mkScene (rocketPos s) (booster0 s) (booster1 s) (fairingL s) (fairingR s)
          (satellite s) p0 p1
          (groundVisible s) (earthVisible s) (starsVisible s) (orbitTime s).

Definition setOrbitTime (t : R) (s : Scene) : Scene :=
  mkScene (rocketPos s) (booster0 s) (booster1 s) (fairingL s) (fairingR s)
          (satellite s) (panel0 s) (panel1 s)
          (groundVisible s) (earthVisible s) (starsVisible s) t.

(** ** The phase dispatch of [animate]

    One definition per branch of the [if (p <= ...) ... else if ...] chain,
    each a function of the progress [p], the frame's [deltaTime] and the
    scene it mutates.  A branch starts from [exhaustIntensity = 0] and
    [primarySubject = rocketGroup], the values the locals are initialised to. *)

(** [p <= 0.05]: pre-launch on the ground. *)
Definition phasePreLaunch (p dt : R) (s : Scene) : PhaseOut :=
  let s := setRocketY groundLaunchY s in
  let s := setVisibility true false false s in
  mkOut s 0 (mkMission "Pre-Launch Countdown" 0 0) false.

(** [p <= 0.10]: ignition on the ground. *)
Definition phaseIgnition (p dt : R) (s : Scene) : PhaseOut :=
  let phaseProgress := (p - 0.05) / 0.05 in
  let s := setRocketY groundLaunchY s in
  let s := setVisibility true false false s in
  mkOut s (lerp 0 0.3 phaseProgress) (mkMission "Ignition Sequence" 0 0) false.

(** [p <= 0.35]: lift-off from the ground. *)
Definition phaseGroundLiftoff (p dt : R) (s : Scene) : PhaseOut :=
  let phaseProgress := easeInOutCubic ((p - 0.10) / 0.25) in
  let y := lerp groundLaunchY (groundLaunchY + 50) phaseProgress in
  let s := setRocketY y s in
  let s := setVisibility true false false s in
  mkOut s (Rmin 0.7 (phaseProgress * 1.2))
        (mkMission "Ground Liftoff" (y * 2) (lerp 0 0.18 phaseProgress)) false.

(** [p <= 0.50]: cross-fade from the ground scene to the space scene. *)
Definition phaseAscending (p dt : R) (s : Scene) : PhaseOut :=
  let phaseProgress := easeInOutQuint ((p - 0.35) / 0.15) in
  let y := lerp (groundLaunchY + 50) launchpadY phaseProgress in
  let s := setRocketY y s in
  let fadeOut := Rmax 0 (Rmin 1 ((phaseProgress - 0.5) / 0.35)) in
  let fadeIn := Rmax 0 (Rmin 1 ((phaseProgress - 0.05) / 0.5)) in
  let s := setVisibility (Rltb fadeOut 0.98) (Rltb 0.02 fadeIn) (Rltb 0.12 fadeIn) s in
  mkOut s (lerp 0.45 0.08 phaseProgress)
        (mkMission "Ascending to Orbit" (y * 5) (lerp 0.18 0.9 phaseProgress)) false.

(** [p <= 0.53] *)
Definition phaseOrbitalApproach (p dt : R) (s : Scene) : PhaseOut :=
  let s := setRocketY launchpadY s in
  let s := setVisibility false true true s in
  mkOut s 0 (mkMission "Orbital Approach" 0 0) false.

(** [p <= 0.58] *)
Definition phaseLaunchPreparation (p dt : R) (s : Scene) : PhaseOut :=
  let s := setRocketY launchpadY s in
  let s := setVisibility false true true s in
  mkOut s (lerp 0 0.1 ((p - 0.53) / 0.05))
        (mkMission "Launch Preparation" 0 0) false.

(** [p <= 0.72] *)
Definition phaseOrbitalLiftoff (p dt : R) (s : Scene) : PhaseOut :=
  let phaseProgress := easeInOutCubic ((p - 0.58) / 0.14) in
  let y := lerp launchpadY (launchpadY + 250) phaseProgress in
  let s := setRocketY y s in
  let s := setVisibility false true true s in
  mkOut s (Rmin 1 (phaseProgress * 5))
        (mkMission "Orbital Liftoff & Ascent" ((y - earthRadius) * 5)
                   (lerp 0 7.5 phaseProgress)) false.

(** The booster writes of the [p <= 0.84] branch.  Past [stageSep] only
    [position.x], [position.y] and [rotation.z] are assigned, so [position.z]
    keeps whatever it held; before it the whole position is [set]. *)
Definition boosterPoses (phaseProgress : R) (s : Scene) : Scene :=
  if Rlt_dec stageSep phaseProgress then
    let sepProg := (phaseProgress - stageSep) / (1 - stageSep) in
    setBoosters
      (mkBooster (mkVec3 (lerp (-3.5) (-20 - sepProg * 30) sepProg)
                         (lerp 0 (-10) sepProg)
                         (vz (b_pos (booster0 s))))
                 (lerp 0 (-0.3) sepProg))
      (mkBooster (mkVec3 (lerp 3.5 (20 + sepProg * 30) sepProg)
                         (lerp 0 (-10) sepProg)
                         (vz (b_pos (booster1 s))))
                 (lerp 0 0.3 sepProg))
      s
  else
    setBoosters (mkBooster (mkVec3 (-3.5) 0 (-2)) 0)
                (mkBooster (mkVec3 3.5 0 (-2)) 0) s.

(** [p <= 0.84]: orbital ascent, then booster separation. *)
Definition phaseOrbitalAscent (p dt : R) (s : Scene) : PhaseOut :=
  let phaseProgress := easeInOutCubic ((p - 0.72) / 0.12) in
  let y := lerp (launchpadY + 250) (launchpadY + 500) phaseProgress in
  let s := setRocketY y s in
  let s := setVisibility false true true s in
  let s := boosterPoses phaseProgress s in
  mkOut s
        (if Rlt_dec stageSep phaseProgress
         then lerp 1 0.7 ((phaseProgress - stageSep) / (1 - stageSep))
         else 1)
        (mkMission (if Rlt_dec stageSep phaseProgress
                    then "Booster Separation" else "Orbital Ascent")
                   ((y - earthRadius) * 5)
                   (lerp 7.5 9 phaseProgress))
        false.

(** The guarded satellite reveal of the [p <= 0.94] branch: only when the
    satellite is still hidden is it shown and placed 30 above the rocket. *)
Definition revealSatellite (s : Scene) : Scene :=
  if sat_visible (satellite s) then s
  else
    setSatellite
      (mkSatellite true
                   (mkVec3 (vx (rocketPos s)) (vy (rocketPos s) + 30) (vz (rocketPos s)))
                   (sat_rotx (satellite s)) (sat_roty (satellite s)))
      s.

(** [p <= 0.94]: fairing separation. *)
Definition phaseFairingSeparation (p dt : R) (s : Scene) : PhaseOut :=
  let phaseProgress := easeInOutCubic ((p - 0.84) / 0.10) in
  let y := lerp (launchpadY + 500) (launchpadY + 600) phaseProgress in
  let s := setRocketY y s in
  let s := setVisibility false true true s in
  let s := setFairings (mkFairing (lerp 0 (-5) phaseProgress) (lerp 0 (-0.2) phaseProgress))
                       (mkFairing (lerp 0 5 phaseProgress) (lerp 0 0.2 phaseProgress)) s in
  let s := revealSatellite s in
  mkOut s 0
        (mkMission "Fairing Separation" ((y - earthRadius) * 5)
                   (lerp 15 27.6 phaseProgress))
        true.

Definition orbitRadius : R := earthRadius + 75.
Definition orbitInclination : R := PI / 8.

(** The satellite position on the inclined circle, at orbit angle [a]. *)
Definition orbitPosition (a : R) : Vec3 :=
  mkVec3 (cos a * orbitRadius)
         (sin a * orbitRadius * sin orbitInclination)
         (sin a * orbitRadius * cos orbitInclination).

(** The final [else]: orbital operations.  The visibility flags are not
    assigned here and [exhaustIntensity] keeps its initial 0. *)
Definition phaseOrbitalOperations (p dt : R) (s : Scene) : PhaseOut :=
  let phaseProgress := easeInOutCubic ((p - 0.94) / 0.06) in
  let s := setRocketY (lerp (launchpadY + 600) (launchpadY + 580) phaseProgress) s in
  let s := setOrbitTime (orbitTime s + dt * 0.5) s in
  let orbitAngle := orbitTime s in
  let s := setSatellite
             (mkSatellite (sat_visible (satellite s))
                          (orbitPosition orbitAngle)
                          (sin orbitAngle * 0.15)
                          (orbitAngle + PI / 2)) s in
  let s := setPanels (lerp (PI / 2) 0 (Rmin 1 (phaseProgress * 3)))
                     (lerp (- PI / 2) 0 (Rmin 1 (phaseProgress * 3))) s in
  mkOut s 0
        (mkMission "Orbital Operations" ((orbitRadius - earthRadius) * 5) 27.6)
        true.

(** The [if]/[else if] chain. *)
Definition animatePhases (p dt : R) (s : Scene) : PhaseOut :=
  if Rle_dec p 0.05 then phasePreLaunch p dt s
  else if Rle_dec p 0.10 then phaseIgnition p dt s
  else if Rle_dec p 0.35 then phaseGroundLiftoff p dt s
  else if Rle_dec p 0.50 then phaseAscending p dt s
  else if Rle_dec p 0.53 then phaseOrbitalApproach p dt s
  else if Rle_dec p 0.58 then phaseLaunchPreparation p dt s
  else if Rle_dec p 0.72 then phaseOrbitalLiftoff p dt s
  else if Rle_dec p 0.84 then phaseOrbitalAscent p dt s
  else if Rle_dec p 0.94 then phaseFairingSeparation p dt s
  else phaseOrbitalOperations p dt s.

(** ** The exhaust particle pool

    [particles[i]] and the entries of the four typed arrays that belong to
    particle [i] ([positions[3i..3i+2]], [colors[3i..3i+2]], [sizes[i]],
    [alphas[i]]) are kept together: the pool is a list of particles, each with
    its render slot.  The pool is built with [PARTICLE_COUNT] entries and
    [updateExhaust] visits every one of them in index order. *)

Record Particle : Type := mkParticle {
  p_pos : Vec3;      (* position *)
  p_vel : Vec3;      (* velocity *)
  age : R;
  lifetime : R
}.

Record Slot : Type := mkSlot {
  slot_pos : Vec3;     (* positions[3i], positions[3i+1], positions[3i+2] *)
  slot_color : Vec3;   (* colors[3i..3i+2] as r, g, b *)
  slot_size : R;       (* sizes[i] *)
  slot_alpha : R       (* alphas[i] *)
}.

Definition Pool : Type := list (Particle * Slot).

Definition PARTICLE_COUNT : nat := 5001%nat.

(** The value written to [positions[i * 3 + 1]] to hide a dead particle. *)
Definition HIDDEN_Y : R := -999.

(** [age: 999, lifetime: 0], and [positions[i * 3 + 1] = -999]. *)
Definition deadParticle : Particle := mkParticle (mkVec3 0 0 0) (mkVec3 0 0 0) 999 0.
Definition hiddenSlot : Slot := mkSlot (mkVec3 0 HIDDEN_Y 0) (mkVec3 0 0 0) 0 0.
Definition initialPool : Pool := repeat (deadParticle, hiddenSlot) PARTICLE_COUNT.

Definition hideSlot (sl : Slot) : Slot :=
  mkSlot (mkVec3 (vx (slot_pos sl)) HIDDEN_Y (vz (slot_pos sl)))
         (slot_color sl) (slot_size sl) (slot_alpha sl).

Definition alive (p : Particle) : bool := Rleb (age p) (lifetime p).

Definition aliveCount (pool : Pool) : nat :=
  List.length (filter (fun ps => alive (fst ps)) pool).

Section Exhaust.

(** [Math.random()] is a sequence of draws; the state threaded through the
    update is the index of the next draw. *)
Variable random : nat -> R.

(** [colorHot], [colorWarm], [colorCool] as r, g, b triples. *)
Variables colorHot colorWarm colorCool : Vec3.

(** The respawn assignments, in the order the draws are made. *)
Definition respawn (k : nat) : Particle :=
  let lifetime' := lerp 0.8 1.5 (random k) in
  let px := (random (k + 1)%nat - 0.5) * 1.5 in
  let pz := (random (k + 2)%nat - 0.5) * 1.5 in
  let wx := (random (k + 3)%nat - 0.5) * 8 in
  let wy := lerp (-50) (-80) (random (k + 4)%nat) in
  let wz := (random (k + 5)%nat - 0.5) * 8 in
  mkParticle (mkVec3 px 0 pz) (mkVec3 wx wy wz) 0 lifetime'.

(** The tail of the loop body, reached by a particle that is still in
    flight and by one that has just been respawned. *)
Definition integrate (deltaTime intensity : R) (p : Particle) : Particle * Slot :=
  let pos := mkVec3 (vx (p_pos p) + vx (p_vel p) * deltaTime)
                    (vy (p_pos p) + vy (p_vel p) * deltaTime)
                    (vz (p_pos p) + vz (p_vel p) * deltaTime) in
  let vel := mkVec3 (vx (p_vel p)) (vy (p_vel p) * 0.99) (vz (p_vel p)) in
  let ageRatio := age p / lifetime p in
  let tempColor :=
    if Rlt_dec ageRatio 0.3
    then vlerp colorHot colorWarm (ageRatio / 0.3)
    else vlerp colorWarm colorCool ((ageRatio - 0.3) / 0.7) in
  (mkParticle pos vel (age p) (lifetime p),
   mkSlot pos tempColor (lerp 5 20 ageRatio * intensity)
          ((1.0 - ageRatio ^ 2) * intensity)).

(** One iteration of the [for] loop of [updateExhaust]. *)
Definition updateParticle (deltaTime intensity : R)
           (ps : Particle * Slot) (k : nat) : (Particle * Slot) * nat :=
  let p := mkParticle (p_pos (fst ps)) (p_vel (fst ps))
                      (age (fst ps) + deltaTime) (lifetime (fst ps)) in
  if Rlt_dec (lifetime p) (age p) then
    if Rlt_dec (random k) intensity
    then (integrate deltaTime intensity (respawn (S k)), (k + 7)%nat)
    else ((p, hideSlot (snd ps)), S k)
  else (integrate deltaTime intensity p, k).

(** [updateExhaust(deltaTime, intensity)] over the whole pool. *)
Fixpoint updateExhaust (deltaTime intensity : R) (pool : Pool) (k : nat) : Pool * nat :=
  match pool with
  | [] => ([], k)
  | ps :: rest =>
      let r := updateParticle deltaTime intensity ps k in
      let r' := updateExhaust deltaTime intensity rest (snd r) in
      (fst r :: fst r', snd r')
  end.

(** A run of calls, each with its own [(deltaTime, intensity)]. *)
Fixpoint runExhaust (calls : list (R * R)) (pool : Pool) (k : nat) : Pool * nat :=
  match calls with
  | [] => (pool, k)
  | (deltaTime, intensity) :: rest =>
      let r := updateExhaust deltaTime intensity pool k in
      runExhaust rest (fst r) (snd r)
  end.

End Exhaust.

(** ** Camera *)

Inductive CameraAngle : Type := cinematic | follow | wide.

(** [const lerpFactor = p <= 0.51 ? 0.012 : 0.04] *)
Definition lerpFactor (p : R) : R := if Rle_dec p 0.51 then 0.012 else 0.04.

(** [camera.position.lerp(targetCamPos, lerpFactor)] *)
Definition smoothCamera (p : R) (current target : Vec3) : Vec3 :=
  vlerp current target (lerpFactor p).

(** The look-at point of the tick: the point one unit ahead of the moved
    camera along its world direction [dir], pulled towards [targetLookAt]. *)
Definition smoothLookAt (p : R) (camPos dir targetLookAt : Vec3) : Vec3 :=
  vlerp (vadd camPos dir) targetLookAt (lerpFactor p).

(** Ticks with the target held fixed; [ps] are the progress samples. *)
Fixpoint followTarget (ps : list R) (current target : Vec3) : Vec3 :=
  match ps with
  | [] => current
  | p :: rest => followTarget rest (smoothCamera p current target) target
  end.

Definition distance (a b : Vec3) : R :=
  sqrt ((vx a - vx b) ^ 2 + (vy a - vy b) ^ 2 + (vz a - vz b) ^ 2).

Section CameraDirector.

(** [primarySubject.localToWorld(offset)] is the rendering library's: it
    applies the subject's world matrix, which holds what the previous render
    left and not the poses the tick has just written.  It is taken as given:
    the subject ([true] for the satellite) and the local offset. *)
Variable localToWorld : bool -> Vec3 -> Vec3.

Definition subjectPosition (o : PhaseOut) : Vec3 :=
  if subjectIsSatellite o then sat_pos (satellite (scene o))
  else rocketPos (scene o).

(** The [--- CAMERA CONTROL ---] chain: [(targetCamPos, targetLookAt)]. *)
Definition cameraTarget (mode : CameraAngle) (p : R) (o : PhaseOut) : Vec3 * Vec3 :=
  let s := scene o in
  if Rle_dec p 0.05 then
    let phaseProgress := easeInOutCubic (p / 0.05) in
    (lerpVectors (mkVec3 100 20 100) (mkVec3 85 18 85) phaseProgress, mkVec3 0 12 0)
  else if Rle_dec p 0.10 then
    let phaseProgress := easeInOutCubic ((p - 0.05) / 0.05) in
    (lerpVectors (mkVec3 85 18 85) (mkVec3 70 20 70) phaseProgress, mkVec3 0 12 0)
  else if Rle_dec p 0.35 then
    let phaseProgress := easeInOutCubic ((p - 0.10) / 0.25) in
    (lerpVectors (mkVec3 70 20 70) (mkVec3 65 38 65) phaseProgress,
     mkVec3 0 (lerp 12 33 phaseProgress) 0)
  else if Rle_dec p 0.38 then
    let phaseProgress := easeInOutQuint ((p - 0.35) / 0.03) in
    (lerpVectors (mkVec3 65 38 65) (mkVec3 58 60 95) phaseProgress,
     lerpVectors (mkVec3 0 33 0) (mkVec3 0 31 0) phaseProgress)
  else if Rle_dec p 0.42 then
    let phaseProgress := easeInOutQuint ((p - 0.38) / 0.04) in
    (lerpVectors (mkVec3 58 60 95) (mkVec3 42 90 140) phaseProgress,
     lerpVectors (mkVec3 0 31 0) (mkVec3 0 28 0) phaseProgress)
  else if Rle_dec p 0.46 then
    let phaseProgress := easeInOutQuint ((p - 0.42) / 0.04) in
    (lerpVectors (mkVec3 42 90 140) (mkVec3 25 115 200) phaseProgress,
     lerpVectors (mkVec3 0 28 0) (mkVec3 0 23 0) phaseProgress)
  else if Rle_dec p 0.51 then
    let phaseProgress := easeInOutQuint ((p - 0.46) / 0.05) in
    (lerpVectors (mkVec3 25 115 200) (mkVec3 0 (launchpadY + 25) 60) phaseProgress,
     lerpVectors (mkVec3 0 23 0) (mkVec3 0 (launchpadY + 20) 0) phaseProgress)
  else
    match mode with
    | cinematic =>
        if Rle_dec p 0.58 then
          (mkVec3 0 (launchpadY + 25) 60, mkVec3 0 (launchpadY + 20) 0)
        else if Rle_dec p 0.72 then
          let phaseProgress := easeInOutCubic ((p - 0.58) / 0.14) in
          let camAngle := phaseProgress * PI * 0.5 in
          (mkVec3 (sin camAngle * 30) (vy (rocketPos s) + 15) (60 + cos camAngle * 15),
           mkVec3 0 (vy (rocketPos s)) 0)
        else if Rle_dec p 0.84 then
          (mkVec3 65 (vy (rocketPos s) + 35) 65, rocketPos s)
        else if Rle_dec p 0.94 then
          (mkVec3 (-20) (vy (sat_pos (satellite s)) + 10) 40, sat_pos (satellite s))
        else
          let camOrbitRadius := 180 in
          let camAngleOffset := orbitTime s * 0.3 in
          let camElevation := 70 in
          (mkVec3 (cos camAngleOffset * camOrbitRadius) camElevation
                  (sin camAngleOffset * camOrbitRadius),
           mkVec3 0 0 0)
    | follow =>
        (localToWorld (subjectIsSatellite o) (mkVec3 0 20 (-70)), subjectPosition o)
    | wide =>
        (vadd (subjectPosition o) (mkVec3 180 180 180), subjectPosition o)
    end.

End CameraDirector.

(** ** Observations of a tick *)

Definition rocketY (o : PhaseOut) : R := vy (rocketPos (scene o)).

(** The poses of the animated bodies: rocket, the two boosters, the two
    fairing halves, and the satellite's position and rotation. *)
Record Poses : Type := mkPoses {
  pose_rocket : Vec3;
  pose_booster0 : Booster;
  pose_booster1 : Booster;
  pose_fairingL : Fairing;
  pose_fairingR : Fairing;
  pose_satPos : Vec3;
  pose_satRot : R * R
}.

Definition subjectPoses (s : Scene) : Poses :=
  mkPoses (rocketPos s) (booster0 s) (booster1 s) (fairingL s) (fairingR s)
          (sat_pos (satellite s))
          (sat_rotx (satellite s), sat_roty (satellite s)).

(** Everything a tick derives: poses, panel rotations, the four visibility
    flags, telemetry and exhaust intensity. *)
Record Derived : Type := mkDerived {
  d_poses : Poses;
  d_panels : R * R;
  d_visible : bool * bool * bool * bool;  (* ground, earth, stars, satellite *)
  d_mission : MissionData;
  d_intensity : R
}.

Definition derivedState (o : PhaseOut) : Derived :=
  let s := scene o in
  mkDerived (subjectPoses s) (panel0 s, panel1 s)
            (groundVisible s, earthVisible s, starsVisible s, sat_visible (satellite s))
            (mission o) (exhaustIntensity o).

(** The thresholds of the dispatch, each shared by two adjacent phases. *)
Definition boundaries : list R :=
  [0.05; 0.10; 0.35; 0.50; 0.53; 0.58; 0.72; 0.84; 0.94].

(** The scene the phase below a boundary [b] leaves at its end, and the scene
    the phase above leaves when it starts from there. *)
Definition endPose (lower : R -> R -> Scene -> PhaseOut) (b dt : R) (s : Scene) : Scene :=
  scene (lower b dt s).

Definition startPose (lower upper : R -> R -> Scene -> PhaseOut)
           (b dt : R) (s : Scene) : Scene :=
  scene (upper b dt (endPose lower b dt s)).

(** Continuity of all subject poses across a boundary. *)
Definition boundaryContinuous (lower upper : R -> R -> Scene -> PhaseOut) (b : R) : Prop :=
  forall dt s,
    subjectPoses (startPose lower upper b dt s) = subjectPoses (endPose lower b dt s).

(** Purity of a tick in the progress and the orbit accumulator. *)
Definition tickIsPure : Prop :=
  forall p dt s1 s2,
    orbitTime s1 = orbitTime s2 ->
    derivedState (animatePhases p dt s1) = derivedState (animatePhases p dt s2).

(** The in-range progress value nearest to [p]. *)
Definition nearestInRange (p : R) : R := Rmax 0 (Rmin 1 p).

(** A scene in which the later phases have been visited: the fresh scene
    after a tick at the end of booster separation and one at the end of
    fairing separation, with no time elapsed. *)
Definition visitedScene : Scene :=
  scene (animatePhases 0.94 0 (scene (animatePhases 0.84 0 initialScene))).




(** A particle past its lifetime. *)
Definition dead (p : Particle) : Prop := lifetime p < age p.

(** A uniform draw of [Math.random()] lies in [[0, 1)]. *)
Definition unitDraws (random : nat -> R) : Prop := forall n, 0 <= random n < 1.

(** ** Runs of ticks *)

(** A run of the phase dispatch over successive frames: each tick has its
    progress sample and its frame time and mutates the scene the previous
    tick left. *)
Fixpoint runTicks (ticks : list (R * R)) (s : Scene) : Scene :=
  match ticks with
  | [] => s
  | (p, dt) :: rest => runTicks rest (scene (animatePhases p dt s))
  end.

(** The frame time of the ticks whose progress lies in the orbital branch. *)
Fixpoint orbitalFrameTime (ticks : list (R * R)) : R :=
  match ticks with
  | [] => 0
  | (p, dt) :: rest =>
      if Rle_dec p 0.94 then orbitalFrameTime rest else dt + orbitalFrameTime rest
  end.

(** Whether a progress sample lies in the fairing-separation branch. *)
Definition inFairingPhase (p : R) : bool :=
  if Rle_dec p 0.84 then false else if Rle_dec p 0.94 then true else false.

(** ** Camera keyframes *)

(** The progress values at which the camera chain switches keyframes, up to
    the hand-over to the selectable camera modes. *)
Definition cameraBoundaries : list R := [0.05; 0.10; 0.35; 0.38; 0.42; 0.46; 0.51].

(** Two points are within [k] of each other in every coordinate. *)
Definition within (k : R) (a b : Vec3) : Prop :=
  Rabs (vx a - vx b) <= k /\ Rabs (vy a - vy b) <= k /\ Rabs (vz a - vz b) <= k.

(** ** Invariants of the pool *)

(** A particle as the initial pool has it (never spawned: lifetime 0, age
    at least 999) or as a respawn leaves it (lifetime in [[0.8, 1.5)]). *)
Definition spawnState (p : Particle) : Prop :=
  (lifetime p = 0 /\ 999 <= age p) \/ (0 <= age p /\ 0.8 <= lifetime p < 1.5).

(** The plume points down: vertical velocity in [[-80, 0]], horizontal
    velocity within 4 in x and z, position at or below the emitter. *)
Definition plumeState (p : Particle) : Prop :=
  -80 <= vy (p_vel p) <= 0 /\
  -4 <= vx (p_vel p) <= 4 /\ -4 <= vz (p_vel p) <= 4 /\
  vy (p_pos p) <= 0.

(** ** Scroll position, telemetry throttle, countdown and auto-scroll *)

(** [handleScroll]: the scroll position as a percentage of the scrollable
    height. *)
Definition scrollPercentOf (scrollY scrollHeight innerHeight : R) : R :=
  (scrollY / (scrollHeight - innerHeight)) * 100.

(** [const p = scrollState.percent / 100] *)
Definition progressOf (percent : R) : R := percent / 100.

(** The throttle at the end of [animate]: whether the frame with timestamp
    [time] calls [onSceneUpdate], and the value [lastUIUpdate] holds after. *)
Definition uiUpdate (time lastUIUpdate : R) : bool * R :=
  if Rlt_dec 16 (time - lastUIUpdate) then (true, time) else (false, lastUIUpdate).

(** The timestamps of the frames that call [onSceneUpdate], for a run of
    frames. *)
Fixpoint uiUpdates (times : list R) (lastUIUpdate : R) : list R :=
  match times with
  | [] => []
  | time :: rest =>
      if fst (uiUpdate time lastUIUpdate)
      then time :: uiUpdates rest (snd (uiUpdate time lastUIUpdate))
      else uiUpdates rest (snd (uiUpdate time lastUIUpdate))
  end.

(** Every entry is more than [gap] after the one before it, the first one
    after [last]. *)
Fixpoint spaced (gap last : R) (times : list R) : Prop :=
  match times with
  | [] => True
  | time :: rest => gap < time - last /\ spaced gap time rest
  end.

(** [s.padStart(n, c)] for a one-character pad. *)
Fixpoint replicate (n : nat) (c : ascii) : string :=
  match n with
  | O => EmptyString
  | S m => String c (replicate m c)
  end.

Definition padStart (n : nat) (c : ascii) (s : string) : string :=
  replicate (n - String.length s) c ++ s.

(** [z.toString()] of an integer. *)
Definition toString (z : Z) : string := NilZero.string_of_int (Z.to_int z).

(** [getCountdown] of the overlay; [Math.floor] is [Int_part]. *)
Definition getCountdown (scrollPercent : R) : string :=
  if Rlt_dec scrollPercent 10 then "T-00:00:10"
  else if Rlt_dec scrollPercent 25 then
    let countdownProgress := (scrollPercent - 10) / 15 in
    let countdown := (10 - Int_part (countdownProgress * 10))%Z in
    "T-00:00:" ++ padStart 2 "0"%char (toString countdown)
  else "LIFTOFF".




(** * Verification *)

(** ** Facts about the helpers *)

Lemma lerp_0 (a b : R) : lerp a b 0 = a.
Proof. unfold lerp; ring. Qed.

Lemma lerp_1 (a b : R) : lerp a b 1 = b.
Proof. unfold lerp; ring. Qed.

Lemma lerp_affine (a b t : R) : lerp a b t = a + (b - a) * t.
Proof. unfold lerp; ring. Qed.

Lemma easeInOutCubic_lo (t : R) : t < 0.5 -> easeInOutCubic t = 4 * t * t * t.
Proof. intros H; unfold easeInOutCubic; destruct (Rlt_dec t 0.5); [reflexivity | lra]. Qed.

Lemma easeInOutCubic_hi (t : R) :
  0.5 <= t -> easeInOutCubic t = 1 - 4 * (1 - t) * (1 - t) * (1 - t).
Proof. intros H; unfold easeInOutCubic; destruct (Rlt_dec t 0.5); [lra | field]. Qed.

Lemma easeInOutQuint_lo (t : R) : t < 0.5 -> easeInOutQuint t = 16 * t * t * t * t * t.
Proof. intros H; unfold easeInOutQuint; destruct (Rlt_dec t 0.5); [reflexivity | lra]. Qed.

Lemma easeInOutQuint_hi (t : R) :
  0.5 <= t ->
  easeInOutQuint t = 1 - 16 * (1 - t) * (1 - t) * (1 - t) * (1 - t) * (1 - t).
Proof. intros H; unfold easeInOutQuint; destruct (Rlt_dec t 0.5); [lra | field]. Qed.

Lemma easeInOutCubic_0 : easeInOutCubic 0 = 0.
Proof. rewrite easeInOutCubic_lo; lra. Qed.

Lemma easeInOutCubic_1 : easeInOutCubic 1 = 1.
Proof. rewrite easeInOutCubic_hi; lra. Qed.

Lemma easeInOutQuint_0 : easeInOutQuint 0 = 0.
Proof. rewrite easeInOutQuint_lo; lra. Qed.

Lemma easeInOutQuint_1 : easeInOutQuint 1 = 1.
Proof. rewrite easeInOutQuint_hi; lra. Qed.

(** A cube of a number in [[0, 1/2]] is at most a quarter of it. *)
Lemma cube_small (u : R) : 0 <= u <= 0.5 -> 0 <= 4 * u * u * u <= u.
Proof.
  intros [H0 H1].
  assert (Hsq : 0 <= u * u <= 0.25) by nra.
  split; nra.
Qed.

Lemma quint_small (u : R) : 0 <= u <= 0.5 -> 0 <= 16 * u * u * u * u * u <= u.
Proof.
  intros [H0 H1].
  assert (Hsq : 0 <= u * u <= 0.25) by nra.
  assert (Hq : 0 <= (u * u) * (u * u) <= 0.0625) by nra.
  split; nra.
Qed.

(** Near the start of a phase the eased progress is between 0 and the raw
    progress; near the end it is between the raw progress and 1. *)
Lemma easeInOutCubic_near_0 (t : R) : 0 <= t < 0.5 -> 0 <= easeInOutCubic t <= t.
Proof.
  intros H. rewrite easeInOutCubic_lo by lra. apply cube_small; lra.
Qed.

Lemma easeInOutCubic_near_1 (t : R) : 0.5 <= t <= 1 -> t <= easeInOutCubic t <= 1.
Proof.
  intros H. rewrite easeInOutCubic_hi by lra.
  pose proof (cube_small (1 - t)) as Hc. lra.
Qed.

Lemma easeInOutQuint_near_0 (t : R) : 0 <= t < 0.5 -> 0 <= easeInOutQuint t <= t.
Proof.
  intros H. rewrite easeInOutQuint_lo by lra. apply quint_small; lra.
Qed.

Lemma easeInOutQuint_near_1 (t : R) : 0.5 <= t <= 1 -> t <= easeInOutQuint t <= 1.
Proof.
  intros H. rewrite easeInOutQuint_hi by lra.
  pose proof (quint_small (1 - t)) as Hc. lra.
Qed.

Lemma easeInOutCubic_range (t : R) : 0 <= t <= 1 -> 0 <= easeInOutCubic t <= 1.
Proof.
  intros H. destruct (Rlt_dec t 0.5).
  - pose proof (easeInOutCubic_near_0 t); lra.
  - pose proof (easeInOutCubic_near_1 t); lra.
Qed.

Lemma easeInOutQuint_range (t : R) : 0 <= t <= 1 -> 0 <= easeInOutQuint t <= 1.
Proof.
  intros H. destruct (Rlt_dec t 0.5).
  - pose proof (easeInOutQuint_near_0 t); lra.
  - pose proof (easeInOutQuint_near_1 t); lra.
Qed.

(** Past the end of its range the cubic ease keeps growing: it is not clamped. *)
Lemma easeInOutCubic_above_1 (t : R) : 1 < t -> 1 < easeInOutCubic t.
Proof.
  intros H. rewrite easeInOutCubic_hi by lra.
  assert (0 < (t - 1) * (t - 1)) by nra.
  assert (0 < (t - 1) * ((t - 1) * (t - 1))) by nra.
  nra.
Qed.

Lemma easeInOutCubic_below_0 (t : R) : t < 0 -> easeInOutCubic t < 0.
Proof.
  intros H. rewrite easeInOutCubic_lo by lra.
  assert (0 < t * t) by nra.
  nra.
Qed.

(** ** The dispatch, by cases *)

Lemma animatePhases_cases (p dt : R) (s : Scene) :
  (p <= 0.05 /\ animatePhases p dt s = phasePreLaunch p dt s) \/
  (0.05 < p <= 0.10 /\ animatePhases p dt s = phaseIgnition p dt s) \/
  (0.10 < p <= 0.35 /\ animatePhases p dt s = phaseGroundLiftoff p dt s) \/
  (0.35 < p <= 0.50 /\ animatePhases p dt s = phaseAscending p dt s) \/
  (0.50 < p <= 0.53 /\ animatePhases p dt s = phaseOrbitalApproach p dt s) \/
  (0.53 < p <= 0.58 /\ animatePhases p dt s = phaseLaunchPreparation p dt s) \/
  (0.58 < p <= 0.72 /\ animatePhases p dt s = phaseOrbitalLiftoff p dt s) \/
  (0.72 < p <= 0.84 /\ animatePhases p dt s = phaseOrbitalAscent p dt s) \/
  (0.84 < p <= 0.94 /\ animatePhases p dt s = phaseFairingSeparation p dt s) \/
  (0.94 < p /\ animatePhases p dt s = phaseOrbitalOperations p dt s).
Proof.
  unfold animatePhases.
  destruct (Rle_dec p 0.05); [left; split; [lra | reflexivity] | right].
  destruct (Rle_dec p 0.10); [left; split; [lra | reflexivity] | right].
  destruct (Rle_dec p 0.35); [left; split; [lra | reflexivity] | right].
  destruct (Rle_dec p 0.50); [left; split; [lra | reflexivity] | right].
  destruct (Rle_dec p 0.53); [left; split; [lra | reflexivity] | right].
  destruct (Rle_dec p 0.58); [left; split; [lra | reflexivity] | right].
  destruct (Rle_dec p 0.72); [left; split; [lra | reflexivity] | right].
  destruct (Rle_dec p 0.84); [left; split; [lra | reflexivity] | right].
  destruct (Rle_dec p 0.94); [left; split; [lra | reflexivity] | right].
  split; [lra | reflexivity].
Qed.

(** Splits a goal about [animatePhases p dt s] into its ten branches. *)
Ltac by_phase p dt s :=
  destruct (animatePhases_cases p dt s)
    as [[? ->]|[[? ->]|[[? ->]|[[? ->]|[[? ->]|
        [[? ->]|[[? ->]|[[? ->]|[[? ->]|[? ->]]]]]]]]]].

(** ** Exhaust intensity *)

Lemma Rmin_bounds (a x : R) : 0 <= a <= 1 -> 0 <= x -> 0 <= Rmin a x <= 1.
Proof.
  intros Ha Hx. unfold Rmin. destruct (Rle_dec a x); lra.
Qed.

Lemma lerp_between (a b t : R) :
  a <= b -> 0 <= t <= 1 -> a <= lerp a b t <= b.
Proof. intros Hab Ht. rewrite lerp_affine. nra. Qed.

Lemma lerp_between_rev (a b t : R) :
  b <= a -> 0 <= t <= 1 -> b <= lerp a b t <= a.
Proof. intros Hab Ht. rewrite lerp_affine. nra. Qed.

(** Local progress of a phase lies in [(0, 1]]. *)
Lemma local_progress (p a len : R) :
  0 < len -> a < p <= a + len -> 0 < (p - a) / len <= 1.
Proof.
  intros Hlen Hp.
  assert (Hi : 0 < / len) by (apply Rinv_0_lt_compat; lra).
  assert (Hone : len * / len = 1) by (field; lra).
  unfold Rdiv. split; nra.
Qed.

Lemma intensity_ascent_range (e : R) :
  0 <= e <= 1 ->
  0.7 <= (if Rlt_dec stageSep e
          then lerp 1 0.7 ((e - stageSep) / (1 - stageSep)) else 1) <= 1.
Proof.
  intros He. unfold stageSep. destruct (Rlt_dec 0.3 e); [ | lra].
  apply lerp_between_rev; [lra | ].
  replace (1 - 0.3) with 0.7 by lra.
  pose proof (local_progress e 0.3 0.7). lra.
Qed.

(** The eased progress is positive past the start of a phase. *)
Lemma easeInOutCubic_pos (t : R) : 0 < t <= 1 -> 0 < easeInOutCubic t.
Proof.
  intros [H0 H1]. destruct (Rlt_dec t 0.5) as [Hlt|Hge].
  - rewrite easeInOutCubic_lo by exact Hlt.
    assert (0 < t * t) by nra. nra.
  - pose proof (easeInOutCubic_near_1 t). lra.
Qed.

(** C4: for every progress value the phase dispatch yields an exhaust
    intensity in [[0, 1]], and in every branch it is the value the branch
    computes: 0 in the dormant phases ([p <= 0.05] and [0.50 < p <= 0.53]);
    the ramp [lerp 0 0.3] of the local progress during ignition, positive
    and at most 0.3; the ramp [1.2 * e] of the eased progress clamped at 0.7
    during the ground lift-off, positive and at most 0.7; [lerp 0.45 0.08]
    of the eased progress while ascending; the ramp [lerp 0 0.1] during
    launch preparation; the ramp [5 * e] clamped at 1 during the orbital
    lift-off, positive; exactly 1 in the ascent phase up to the [stageSep]
    threshold of the eased progress and the ramp [lerp 1 0.7] down past it;
    and exactly 0 for every [p > 0.84] (fairing separation and orbital
    operations).  In particular this holds for every [p] in [[0, 1]]. *)
Theorem exhaust_intensity_policy (p dt : R) (s : Scene) :
  let i := exhaustIntensity (animatePhases p dt s) in
  0 <= i <= 1 /\
  (0.84 < p -> i = 0) /\
  (p <= 0.05 -> i = 0) /\
  (0.05 < p <= 0.10 -> i = lerp 0 0.3 ((p - 0.05) / 0.05) /\ 0 < i <= 0.3) /\
  (0.10 < p <= 0.35 ->
     i = Rmin 0.7 (easeInOutCubic ((p - 0.10) / 0.25) * 1.2) /\ 0 < i <= 0.7) /\
  (0.35 < p <= 0.50 ->
     i = lerp 0.45 0.08 (easeInOutQuint ((p - 0.35) / 0.15)) /\ 0.08 <= i <= 0.45) /\
  (0.50 < p <= 0.53 -> i = 0) /\
  (0.53 < p <= 0.58 -> i = lerp 0 0.1 ((p - 0.53) / 0.05) /\ 0 < i <= 0.1) /\
  (0.58 < p <= 0.72 ->
     i = Rmin 1 (easeInOutCubic ((p - 0.58) / 0.14) * 5) /\ 0 < i) /\
  (0.72 < p <= 0.84 ->
     let e := easeInOutCubic ((p - 0.72) / 0.12) in
     (e <= stageSep -> i = 1) /\
     (stageSep < e -> i = lerp 1 0.7 ((e - stageSep) / (1 - stageSep)) /\ 0.7 <= i < 1)).
Proof.
  by_phase p dt s; cbn [exhaustIntensity phasePreLaunch phaseIgnition
    phaseGroundLiftoff phaseAscending phaseOrbitalApproach phaseLaunchPreparation
    phaseOrbitalLiftoff phaseOrbitalAscent phaseFairingSeparation
    phaseOrbitalOperations].
  - repeat split; intros; try lra.
  - pose proof (local_progress p 0.05 0.05) as Ht.
    pose proof (lerp_between 0 0.3 ((p - 0.05) / 0.05)) as Hl.
    assert (Hpos : 0 < lerp 0 0.3 ((p - 0.05) / 0.05)) by (unfold lerp; lra).
    repeat split; intros; try lra.
  - pose proof (local_progress p 0.10 0.25) as Ht.
    pose proof (easeInOutCubic_range ((p - 0.10) / 0.25)) as He.
    pose proof (easeInOutCubic_pos ((p - 0.10) / 0.25)) as Hp.
    pose proof (Rmin_bounds 0.7 (easeInOutCubic ((p - 0.10) / 0.25) * 1.2)) as Hm.
    pose proof (Rmin_l 0.7 (easeInOutCubic ((p - 0.10) / 0.25) * 1.2)) as Hl.
    assert (Hpos : 0 < Rmin 0.7 (easeInOutCubic ((p - 0.10) / 0.25) * 1.2))
      by (apply Rmin_glb_lt; lra).
    repeat split; intros; try lra.
  - pose proof (local_progress p 0.35 0.15) as Ht.
    pose proof (easeInOutQuint_range ((p - 0.35) / 0.15)) as He.
    pose proof (lerp_between_rev 0.45 0.08 (easeInOutQuint ((p - 0.35) / 0.15))) as Hl.
    repeat split; intros; try lra.
  - repeat split; intros; try lra.
  - pose proof (local_progress p 0.53 0.05) as Ht.
    pose proof (lerp_between 0 0.1 ((p - 0.53) / 0.05)) as Hl.
    assert (Hpos : 0 < lerp 0 0.1 ((p - 0.53) / 0.05)) by (unfold lerp; lra).
    repeat split; intros; try lra.
  - pose proof (local_progress p 0.58 0.14) as Ht.
    pose proof (easeInOutCubic_range ((p - 0.58) / 0.14)) as He.
    pose proof (easeInOutCubic_pos ((p - 0.58) / 0.14)) as Hp.
    pose proof (Rmin_bounds 1 (easeInOutCubic ((p - 0.58) / 0.14) * 5)) as Hm.
    assert (Hpos : 0 < Rmin 1 (easeInOutCubic ((p - 0.58) / 0.14) * 5))
      by (apply Rmin_glb_lt; lra).
    repeat split; intros; try lra.
  - pose proof (local_progress p 0.72 0.12) as Ht.
    pose proof (easeInOutCubic_range ((p - 0.72) / 0.12)) as He.
    pose proof (intensity_ascent_range (easeInOutCubic ((p - 0.72) / 0.12))) as Hi.
    repeat split; intros; try lra.
    + destruct (Rlt_dec stageSep (easeInOutCubic ((p - 0.72) / 0.12))); [lra | reflexivity].
    + destruct (Rlt_dec stageSep (easeInOutCubic ((p - 0.72) / 0.12))); [reflexivity | lra].
    + destruct (Rlt_dec stageSep (easeInOutCubic ((p - 0.72) / 0.12))) as [Hlt|]; [ | lra].
      rewrite lerp_affine. unfold stageSep in *.
      assert (0 < (easeInOutCubic ((p - 0.72) / 0.12) - 0.3) / (1 - 0.3))
        by (apply Rdiv_lt_0_compat; lra).
      lra.
  - repeat split; intros; try lra.
  - repeat split; intros; try lra.
Qed.

(** The policy at concrete samples: the ignition ramp has reached 0.3 at
    [p = 0.10], the lift-off ramp is at 0.0384 at [p = 0.15] and sits at its
    clamp 0.7 at [p = 0.35], the orbital lift-off has reached 1 at
    [p = 0.72], and the exhaust is off at [p = 0.9]. *)
Lemma exhaust_intensity_policy_witness :
  exhaustIntensity (animatePhases 0.10 0 initialScene) = 0.3 /\
  exhaustIntensity (animatePhases 0.15 0 initialScene) = 0.0384 /\
  exhaustIntensity (animatePhases 0.35 0 initialScene) = 0.7 /\
  exhaustIntensity (animatePhases 0.72 0 initialScene) = 1 /\
  exhaustIntensity (animatePhases 0.9 0 initialScene) = 0.
Proof.
  pose proof (exhaust_intensity_policy 0.10 0 initialScene) as H1.
  pose proof (exhaust_intensity_policy 0.15 0 initialScene) as H1'.
  pose proof (exhaust_intensity_policy 0.35 0 initialScene) as H2.
  pose proof (exhaust_intensity_policy 0.72 0 initialScene) as H2'.
  pose proof (exhaust_intensity_policy 0.9 0 initialScene) as H3.
  cbv zeta in H1, H1', H2, H2', H3.
  destruct H1 as (_ & _ & _ & H1 & _).
  destruct H1' as (_ & _ & _ & _ & H1' & _).
  destruct H2 as (_ & _ & _ & _ & H2 & _).
  destruct H2' as (_ & _ & _ & _ & _ & _ & _ & _ & H2' & _).
  destruct H3 as (_ & H3 & _).
  split; [ | split; [ | split; [ | split; [ | apply H3; lra] ] ] ].
  - destruct H1 as [-> _]; [lra | ].
    replace ((0.10 - 0.05) / 0.05) with 1 by lra. rewrite lerp_1. reflexivity.
  - destruct H1' as [-> _]; [lra | ].
    replace ((0.15 - 0.10) / 0.25) with 0.2 by lra.
    rewrite easeInOutCubic_lo by lra. rewrite Rmin_right by lra. lra.
  - destruct H2 as [-> _]; [lra | ].
    replace ((0.35 - 0.10) / 0.25) with 1 by lra. rewrite easeInOutCubic_1.
    apply Rmin_left. lra.
  - destruct H2' as [-> _]; [lra | ].
    replace ((0.72 - 0.58) / 0.14) with 1 by lra. rewrite easeInOutCubic_1.
    apply Rmin_left. lra.
Defined.

(** ** Telemetry *)

Ltac unfold_phases :=
  cbn [scene exhaustIntensity mission subjectIsSatellite altitude velocity phase
       phasePreLaunch phaseIgnition phaseGroundLiftoff phaseAscending
       phaseOrbitalApproach phaseLaunchPreparation phaseOrbitalLiftoff
       phaseOrbitalAscent phaseFairingSeparation phaseOrbitalOperations].

Lemma altitude_at_050 (dt : R) (s : Scene) :
  altitude (mission (animatePhases 0.50 dt s)) = (earthRadius + 3) * 5.
Proof.
  by_phase 0.50 dt s; try (exfalso; lra). unfold_phases.
  replace ((0.50 - 0.35) / 0.15) with 1 by lra.
  rewrite easeInOutQuint_1, lerp_1. reflexivity.
Qed.

Lemma altitude_after_050 (p dt : R) (s : Scene) :
  0.50 < p <= 0.58 -> altitude (mission (animatePhases p dt s)) = 0.
Proof.
  intros H. by_phase p dt s; try (exfalso; lra); reflexivity.
Qed.

(** C10, as the code has it: at the end of the 'Ascending to Orbit' phase
    ([p = 0.50]) the reported altitude is the rocket height times 5, that is
    [(earthRadius + 3) * 5 = 265] (the Earth radius is 50); for every [p] of
    the following 'Orbital Approach' and 'Launch Preparation' phases
    ([0.50 < p <= 0.58]) it is exactly 0; so the altitude is not monotone in
    the progress: there are [p1 < p2] in [[0, 1]] with a larger altitude at
    [p1]. *)
Theorem altitude_not_monotone :
  (forall dt s, altitude (mission (animatePhases 0.50 dt s)) = (earthRadius + 3) * 5) /\
  (earthRadius + 3) * 5 = 265 /\
  (forall p dt s, 0.50 < p <= 0.58 -> altitude (mission (animatePhases p dt s)) = 0) /\
  (exists p1 p2, 0 <= p1 /\ p1 < p2 /\ p2 <= 1 /\
     forall dt1 s1 dt2 s2,
       altitude (mission (animatePhases p2 dt2 s2)) <
       altitude (mission (animatePhases p1 dt1 s1))).
Proof.
  split; [exact altitude_at_050 | ].
  split; [unfold earthRadius; lra | ].
  split; [exact altitude_after_050 | ].
  exists 0.50, 0.55. repeat split; try lra.
  intros dt1 s1 dt2 s2.
  rewrite altitude_at_050, altitude_after_050 by lra.
  unfold earthRadius; lra.
Qed.

Lemma altitude_not_monotone_witness :
  altitude (mission (animatePhases 0.55 0 initialScene)) = 0.
Proof.
  destruct altitude_not_monotone as (_ & _ & H & _).
  apply H. lra.
Defined.

(** The altitude reported at [p = 0.50] is 265, not 2515. *)
Lemma altitude_at_050_is_265 :
  altitude (mission (animatePhases 0.50 0 initialScene)) = 265 /\
  altitude (mission (animatePhases 0.50 0 initialScene)) <> 2515.
Proof.
  rewrite altitude_at_050. unfold earthRadius. split; lra.
Qed.

(** ** Rocket height *)

(** What the booster writes and the satellite reveal leave alone. *)
Lemma boosterPoses_frame (e : R) (s : Scene) :
  rocketPos (boosterPoses e s) = rocketPos s /\
  fairingL (boosterPoses e s) = fairingL s /\
  fairingR (boosterPoses e s) = fairingR s /\
  satellite (boosterPoses e s) = satellite s /\
  panel0 (boosterPoses e s) = panel0 s /\
  panel1 (boosterPoses e s) = panel1 s /\
  groundVisible (boosterPoses e s) = groundVisible s /\
  earthVisible (boosterPoses e s) = earthVisible s /\
  starsVisible (boosterPoses e s) = starsVisible s /\
  orbitTime (boosterPoses e s) = orbitTime s.
Proof.
  unfold boosterPoses. destruct (Rlt_dec stageSep e); cbn; repeat split.
Qed.

Lemma revealSatellite_frame (s : Scene) :
  rocketPos (revealSatellite s) = rocketPos s /\
  booster0 (revealSatellite s) = booster0 s /\
  booster1 (revealSatellite s) = booster1 s /\
  fairingL (revealSatellite s) = fairingL s /\
  fairingR (revealSatellite s) = fairingR s /\
  panel0 (revealSatellite s) = panel0 s /\
  panel1 (revealSatellite s) = panel1 s /\
  groundVisible (revealSatellite s) = groundVisible s /\
  earthVisible (revealSatellite s) = earthVisible s /\
  starsVisible (revealSatellite s) = starsVisible s /\
  orbitTime (revealSatellite s) = orbitTime s /\
  sat_visible (satellite (revealSatellite s)) = true.
Proof.
  unfold revealSatellite. destruct (sat_visible (satellite s)) eqn:E; cbn; repeat split; assumption.
Qed.

Lemma rocketPos_boosterPoses (e : R) (s : Scene) :
  rocketPos (boosterPoses e s) = rocketPos s.
Proof. apply boosterPoses_frame. Qed.

Lemma rocketPos_revealSatellite (s : Scene) :
  rocketPos (revealSatellite s) = rocketPos s.
Proof. apply revealSatellite_frame. Qed.

(** Unfolds a branch down to the record it builds. *)
Ltac unfold_phases_all :=
  unfold rocketY; unfold_phases;
  rewrite ?rocketPos_boosterPoses, ?rocketPos_revealSatellite;
  cbn [vx vy vz rocketPos scene setRocketY setVisibility setBoosters setFairings
       setSatellite setPanels setOrbitTime].

(** The rocket height a tick writes depends on the progress alone. *)
Lemma rocketY_pure (p dt1 dt2 : R) (s1 s2 : Scene) :
  rocketY (animatePhases p dt1 s1) = rocketY (animatePhases p dt2 s2).
Proof.
  by_phase p dt1 s1; by_phase p dt2 s2; try (exfalso; lra);
    unfold_phases_all; reflexivity.
Qed.

Ltac unfold_consts := unfold launchpadY, groundLaunchY, earthRadius in *.

Ltac solve_abs :=
  unfold Rabs; repeat (match goal with |- context [Rcase_abs ?x] => destruct (Rcase_abs x) end);
  lra.

(** Within 0.01 of a boundary the rocket height moves at most 2100 times as
    far as the progress. *)
Lemma rocketY_near_boundary (b p : R) :
  In b boundaries -> -0.01 < p - b < 0.01 ->
  Rabs (rocketY (animatePhases p 0 initialScene) - rocketY (animatePhases b 0 initialScene))
  <= 2100 * Rabs (p - b).
Proof.
  intros Hb Hp. unfold boundaries in Hb. cbn [In] in Hb.
  destruct Hb as [<-|[<-|[<-|[<-|[<-|[<-|[<-|[<-|[<-|[]]]]]]]]]].
  - (* 0.05 *)
    by_phase p 0 initialScene; try (exfalso; lra);
    by_phase 0.05 0 initialScene; try (exfalso; lra);
    unfold_phases_all; unfold_consts; solve_abs.
  - (* 0.10 *)
    by_phase 0.10 0 initialScene; try (exfalso; lra).
    by_phase p 0 initialScene; try (exfalso; lra);
    unfold_phases_all; unfold_consts.
    + solve_abs.
    + pose proof (easeInOutCubic_near_0 ((p - 0.10) / 0.25)).
      unfold lerp. solve_abs.
  - (* 0.35 *)
    by_phase 0.35 0 initialScene; try (exfalso; lra).
    by_phase p 0 initialScene; try (exfalso; lra);
    unfold_phases_all; unfold_consts;
    replace ((0.35 - 0.10) / 0.25) with 1 by lra;
    rewrite easeInOutCubic_1; unfold lerp.
    + pose proof (easeInOutCubic_near_1 ((p - 0.10) / 0.25)). solve_abs.
    + pose proof (easeInOutQuint_near_0 ((p - 0.35) / 0.15)). solve_abs.
  - (* 0.50 *)
    by_phase 0.50 0 initialScene; try (exfalso; lra).
    by_phase p 0 initialScene; try (exfalso; lra);
    unfold_phases_all; unfold_consts;
    replace ((0.50 - 0.35) / 0.15) with 1 by lra;
    rewrite easeInOutQuint_1; unfold lerp.
    + pose proof (easeInOutQuint_near_1 ((p - 0.35) / 0.15)). solve_abs.
    + solve_abs.
  - (* 0.53 *)
    by_phase p 0 initialScene; try (exfalso; lra);
    by_phase 0.53 0 initialScene; try (exfalso; lra);
    unfold_phases_all; unfold_consts; solve_abs.
  - (* 0.58 *)
    by_phase 0.58 0 initialScene; try (exfalso; lra).
    by_phase p 0 initialScene; try (exfalso; lra);
    unfold_phases_all; unfold_consts.
    + solve_abs.
    + pose proof (easeInOutCubic_near_0 ((p - 0.58) / 0.14)).
      unfold lerp. solve_abs.
  - (* 0.72 *)
    by_phase 0.72 0 initialScene; try (exfalso; lra).
    by_phase p 0 initialScene; try (exfalso; lra);
    unfold_phases_all; unfold_consts;
    replace ((0.72 - 0.58) / 0.14) with 1 by lra;
    rewrite easeInOutCubic_1; unfold lerp.
    + pose proof (easeInOutCubic_near_1 ((p - 0.58) / 0.14)). solve_abs.
    + pose proof (easeInOutCubic_near_0 ((p - 0.72) / 0.12)).
      solve_abs.
  - (* 0.84 *)
    by_phase 0.84 0 initialScene; try (exfalso; lra).
    by_phase p 0 initialScene; try (exfalso; lra);
    unfold_phases_all; unfold_consts;
    replace ((0.84 - 0.72) / 0.12) with 1 by lra;
    rewrite easeInOutCubic_1; unfold lerp.
    + pose proof (easeInOutCubic_near_1 ((p - 0.72) / 0.12)). solve_abs.
    + pose proof (easeInOutCubic_near_0 ((p - 0.84) / 0.10)). solve_abs.
  - (* 0.94 *)
    by_phase 0.94 0 initialScene; try (exfalso; lra).
    by_phase p 0 initialScene; try (exfalso; lra);
    unfold_phases_all; unfold_consts;
    replace ((0.94 - 0.84) / 0.10) with 1 by lra;
    rewrite easeInOutCubic_1; unfold lerp.
    + pose proof (easeInOutCubic_near_1 ((p - 0.84) / 0.10)). solve_abs.
    + pose proof (easeInOutCubic_near_0 ((p - 0.94) / 0.06)). solve_abs.
Qed.

(** The rocket height is continuous in the progress at every boundary. *)
Lemma rocketY_continuous (b : R) :
  In b boundaries ->
  forall eps, 0 < eps ->
  exists delta, 0 < delta /\
    forall p dt1 s1 dt2 s2,
      Rabs (p - b) < delta ->
      Rabs (rocketY (animatePhases p dt1 s1) - rocketY (animatePhases b dt2 s2)) < eps.
Proof.
  intros Hb eps Heps.
  exists (Rmin 0.01 (eps / 2100)). split.
  - apply Rmin_glb_lt; lra.
  - intros p dt1 s1 dt2 s2 Hp.
    rewrite (rocketY_pure p dt1 0 s1 initialScene), (rocketY_pure b dt2 0 s2 initialScene).
    pose proof (Rmin_l 0.01 (eps / 2100)) as Hl.
    pose proof (Rmin_r 0.01 (eps / 2100)) as Hr.
    assert (Hp1 : Rabs (p - b) < 0.01) by lra.
    apply Rabs_def2 in Hp1.
    pose proof (rocketY_near_boundary b p Hb) as HL.
    assert (2100 * Rabs (p - b) < eps) by lra.
    lra.
Qed.

Lemma bp_fairingL e s : fairingL (boosterPoses e s) = fairingL s.
Proof. apply boosterPoses_frame. Qed.
Lemma bp_fairingR e s : fairingR (boosterPoses e s) = fairingR s.
Proof. apply boosterPoses_frame. Qed.
Lemma bp_satellite e s : satellite (boosterPoses e s) = satellite s.
Proof. apply boosterPoses_frame. Qed.
Lemma bp_panel0 e s : panel0 (boosterPoses e s) = panel0 s.
Proof. apply boosterPoses_frame. Qed.
Lemma bp_panel1 e s : panel1 (boosterPoses e s) = panel1 s.
Proof. apply boosterPoses_frame. Qed.
Lemma bp_ground e s : groundVisible (boosterPoses e s) = groundVisible s.
Proof. apply boosterPoses_frame. Qed.
Lemma bp_earth e s : earthVisible (boosterPoses e s) = earthVisible s.
Proof. apply boosterPoses_frame. Qed.
Lemma bp_stars e s : starsVisible (boosterPoses e s) = starsVisible s.
Proof. apply boosterPoses_frame. Qed.
Lemma bp_orbitTime e s : orbitTime (boosterPoses e s) = orbitTime s.
Proof. apply boosterPoses_frame. Qed.

Lemma rs_booster0 s : booster0 (revealSatellite s) = booster0 s.
Proof. apply revealSatellite_frame. Qed.
Lemma rs_booster1 s : booster1 (revealSatellite s) = booster1 s.
Proof. apply revealSatellite_frame. Qed.
Lemma rs_fairingL s : fairingL (revealSatellite s) = fairingL s.
Proof. apply revealSatellite_frame. Qed.
Lemma rs_fairingR s : fairingR (revealSatellite s) = fairingR s.
Proof. apply revealSatellite_frame. Qed.
Lemma rs_panel0 s : panel0 (revealSatellite s) = panel0 s.
Proof. apply revealSatellite_frame. Qed.
Lemma rs_panel1 s : panel1 (revealSatellite s) = panel1 s.
Proof. apply revealSatellite_frame. Qed.
Lemma rs_ground s : groundVisible (revealSatellite s) = groundVisible s.
Proof. apply revealSatellite_frame. Qed.
Lemma rs_earth s : earthVisible (revealSatellite s) = earthVisible s.
Proof. apply revealSatellite_frame. Qed.
Lemma rs_stars s : starsVisible (revealSatellite s) = starsVisible s.
Proof. apply revealSatellite_frame. Qed.
Lemma rs_orbitTime s : orbitTime (revealSatellite s) = orbitTime s.
Proof. apply revealSatellite_frame. Qed.
Lemma rs_visible s : sat_visible (satellite (revealSatellite s)) = true.
Proof. apply revealSatellite_frame. Qed.

(** A satellite that is already shown is left as it is. *)
Lemma rs_satellite_shown s :
  sat_visible (satellite s) = true -> satellite (revealSatellite s) = satellite s.
Proof. intros H. unfold revealSatellite. now rewrite H. Qed.

Create Rewrite HintDb frame.
#[local] Hint Rewrite rocketPos_boosterPoses rocketPos_revealSatellite
  bp_fairingL bp_fairingR bp_satellite bp_panel0 bp_panel1 bp_ground bp_earth
  bp_stars bp_orbitTime rs_booster0 rs_booster1 rs_fairingL rs_fairingR rs_panel0
  rs_panel1 rs_ground rs_earth rs_stars rs_orbitTime rs_visible : frame.

Ltac project_scene :=
  cbn [vx vy vz rocketPos booster0 booster1 fairingL fairingR satellite panel0 panel1
       groundVisible earthVisible starsVisible orbitTime scene
       setRocketY setVisibility setBoosters setFairings setSatellite setPanels
       setOrbitTime sat_pos sat_rotx sat_roty sat_visible b_pos b_rotz f_posx f_rotz].

(** Reduces the projections of a scene built by a branch. *)
Ltac simpl_scene :=
  unfold_phases; project_scene;
  repeat (progress (autorewrite with frame; project_scene)).

Ltac unfold_scene :=
  unfold subjectPoses, startPose, endPose; unfold_phases;
  cbn [vx vy vz rocketPos booster0 booster1 fairingL fairingR satellite panel0 panel1
       groundVisible earthVisible starsVisible orbitTime scene
       setRocketY setVisibility setBoosters setFairings setSatellite setPanels
       setOrbitTime sat_pos sat_rotx sat_roty sat_visible].

Lemma continuous_005 : boundaryContinuous phasePreLaunch phaseIgnition 0.05.
Proof. intros dt s. reflexivity. Qed.

Lemma continuous_010 : boundaryContinuous phaseIgnition phaseGroundLiftoff 0.10.
Proof.
  intros dt s. unfold_scene.
  replace ((0.10 - 0.10) / 0.25) with 0 by lra.
  rewrite easeInOutCubic_0, lerp_0. reflexivity.
Qed.

Lemma continuous_035 : boundaryContinuous phaseGroundLiftoff phaseAscending 0.35.
Proof.
  intros dt s. unfold_scene.
  replace ((0.35 - 0.10) / 0.25) with 1 by lra.
  replace ((0.35 - 0.35) / 0.15) with 0 by lra.
  rewrite easeInOutCubic_1, easeInOutQuint_0, lerp_0, lerp_1. reflexivity.
Qed.

Lemma continuous_050 : boundaryContinuous phaseAscending phaseOrbitalApproach 0.50.
Proof.
  intros dt s. unfold_scene.
  replace ((0.50 - 0.35) / 0.15) with 1 by lra.
  rewrite easeInOutQuint_1, lerp_1. reflexivity.
Qed.

Lemma continuous_053 : boundaryContinuous phaseOrbitalApproach phaseLaunchPreparation 0.53.
Proof. intros dt s. reflexivity. Qed.

Lemma continuous_058 : boundaryContinuous phaseLaunchPreparation phaseOrbitalLiftoff 0.58.
Proof.
  intros dt s. unfold_scene.
  replace ((0.58 - 0.58) / 0.14) with 0 by lra.
  rewrite easeInOutCubic_0, lerp_0. reflexivity.
Qed.

(** Entering the ascent phase leaves rocket, fairings and satellite where
    the lift-off phase put them. *)
Lemma entering_072 (dt : R) (s : Scene) :
  let s1 := endPose phaseOrbitalLiftoff 0.72 dt s in
  let s2 := startPose phaseOrbitalLiftoff phaseOrbitalAscent 0.72 dt s in
  rocketPos s2 = rocketPos s1 /\ fairingL s2 = fairingL s1 /\
  fairingR s2 = fairingR s1 /\ satellite s2 = satellite s1.
Proof.
  cbv zeta. unfold startPose, endPose. simpl_scene.
  replace ((0.72 - 0.58) / 0.14) with 1 by lra.
  replace ((0.72 - 0.72) / 0.12) with 0 by lra.
  rewrite easeInOutCubic_1, easeInOutCubic_0, lerp_0, lerp_1. repeat split.
Qed.

(** Entering the fairing phase leaves rocket and boosters in place; the
    fairings stay put when they are at rest, the satellite when it is
    already shown. *)
Lemma entering_084 (dt : R) (s : Scene) :
  let s1 := endPose phaseOrbitalAscent 0.84 dt s in
  let s2 := startPose phaseOrbitalAscent phaseFairingSeparation 0.84 dt s in
  rocketPos s2 = rocketPos s1 /\ booster0 s2 = booster0 s1 /\
  booster1 s2 = booster1 s1 /\
  (fairingL s = mkFairing 0 0 -> fairingL s2 = fairingL s1) /\
  (fairingR s = mkFairing 0 0 -> fairingR s2 = fairingR s1) /\
  (sat_visible (satellite s) = true -> satellite s2 = satellite s1).
Proof.
  cbv zeta. unfold startPose, endPose.
  repeat split; try intros Hrest.
  - simpl_scene.
    replace ((0.84 - 0.72) / 0.12) with 1 by lra.
    replace ((0.84 - 0.84) / 0.10) with 0 by lra.
    rewrite easeInOutCubic_1, easeInOutCubic_0, lerp_0, lerp_1. reflexivity.
  - simpl_scene. reflexivity.
  - simpl_scene. reflexivity.
  - simpl_scene. rewrite Hrest.
    replace ((0.84 - 0.84) / 0.10) with 0 by lra.
    rewrite easeInOutCubic_0, !lerp_0. reflexivity.
  - simpl_scene. rewrite Hrest.
    replace ((0.84 - 0.84) / 0.10) with 0 by lra.
    rewrite easeInOutCubic_0, !lerp_0. reflexivity.
  - unfold_phases. rewrite rs_satellite_shown; simpl_scene; [reflexivity | exact Hrest].
Qed.

(** Entering orbital operations leaves rocket, boosters and fairings in
    place. *)
Lemma entering_094 (dt : R) (s : Scene) :
  let s1 := endPose phaseFairingSeparation 0.94 dt s in
  let s2 := startPose phaseFairingSeparation phaseOrbitalOperations 0.94 dt s in
  rocketPos s2 = rocketPos s1 /\ booster0 s2 = booster0 s1 /\
  booster1 s2 = booster1 s1 /\ fairingL s2 = fairingL s1 /\ fairingR s2 = fairingR s1.
Proof.
  cbv zeta. unfold startPose, endPose. simpl_scene.
  replace ((0.94 - 0.84) / 0.10) with 1 by lra.
  replace ((0.94 - 0.94) / 0.06) with 0 by lra.
  rewrite easeInOutCubic_1, easeInOutCubic_0, lerp_0, lerp_1.
  repeat split.
Qed.

(** No point of the orbit circle is higher than 125. *)
Lemma orbit_height_bound (a : R) : vy (orbitPosition a) <= 125.
Proof.
  unfold orbitPosition, orbitInclination, orbitRadius, earthRadius. cbn [vy].
  pose proof (SIN_bound a) as Ha. pose proof (SIN_bound (PI / 8)) as Hi.
  assert (Hpos : 0 <= sin (PI / 8)).
  { apply sin_ge_0; pose proof PI_RGT_0; lra. }
  assert (sin a * sin (PI / 8) <= 1) by nra.
  nra.
Qed.

(** The satellite across [p = 0.94]: the fairing phase leaves a satellite
    that is already shown where it was and reveals a hidden one at height
    683; the orbital phase then puts it on the orbit circle. *)
Lemma satellite_at_094 (dt : R) (s : Scene) :
  let s1 := endPose phaseFairingSeparation 0.94 dt s in
  let s2 := startPose phaseFairingSeparation phaseOrbitalOperations 0.94 dt s in
  sat_pos (satellite s2) = orbitPosition (orbitTime s + dt * 0.5) /\
  vy (sat_pos (satellite s2)) <= 125 /\
  (sat_visible (satellite s) = true -> sat_pos (satellite s1) = sat_pos (satellite s)) /\
  (sat_visible (satellite s) = false ->
     sat_pos (satellite s1) = mkVec3 (vx (rocketPos s)) 683 (vz (rocketPos s))).
Proof.
  cbv zeta.
  assert (H2 : sat_pos (satellite (startPose phaseFairingSeparation phaseOrbitalOperations
                                     0.94 dt s)) = orbitPosition (orbitTime s + dt * 0.5)).
  { unfold startPose, endPose. simpl_scene. reflexivity. }
  split; [exact H2 | ]. split; [rewrite H2; apply orbit_height_bound | ].
  split.
  - intros Hv. unfold endPose. unfold_phases.
    rewrite rs_satellite_shown; project_scene; [reflexivity | exact Hv].
  - intros Hv. unfold endPose. unfold_phases. unfold revealSatellite. project_scene.
    rewrite Hv. project_scene.
    replace ((0.94 - 0.84) / 0.10) with 1 by lra.
    rewrite easeInOutCubic_1, lerp_1. unfold_consts. f_equal. lra.
Qed.

(** Every reveal of the fairing phase places the satellite between the
    heights 583 and 683. *)
Lemma reveal_height (p dt : R) (s : Scene) :
  0.84 < p <= 0.94 -> sat_visible (satellite s) = false ->
  583 <= vy (sat_pos (satellite (scene (animatePhases p dt s)))) <= 683.
Proof.
  intros Hp Hv. by_phase p dt s; try (exfalso; lra).
  unfold_phases. unfold revealSatellite. project_scene. rewrite Hv. project_scene.
  pose proof (easeInOutCubic_range ((p - 0.84) / 0.10)) as He.
  unfold lerp. unfold_consts. lra.
Qed.

(** C1, as the code has it: the rocket's pose is continuous at every one of
    the nine phase boundaries (the height written just below and just above a
    boundary [b] converges to the height written at [b], whatever the scene
    and the frame time); at the six boundaries up to [p = 0.58] all subject
    poses written by the phase above at its start equal those left by the
    phase below at its end; at [p = 0.72] this holds for rocket, fairings and
    satellite, at [p = 0.84] for rocket and boosters, for the fairings when
    they are at their rest pose and for the satellite when it is already
    shown, and at [p = 0.94] for rocket, boosters and fairings.  The
    satellite is not covered at [p = 0.94]: the fairing phase leaves a
    satellite that is already shown where it was and reveals a hidden one at
    height 683, every reveal of the fairing phase placing it between the
    heights 583 and 683; whatever it left, the first tick of orbital
    operations puts the satellite on the orbit circle at the accumulator's
    angle, no higher than 125. *)
Theorem phase_boundary_continuity :
  (forall b, In b boundaries ->
     forall eps, 0 < eps ->
     exists delta, 0 < delta /\
       forall p dt1 s1 dt2 s2,
         Rabs (p - b) < delta ->
         Rabs (rocketY (animatePhases p dt1 s1) - rocketY (animatePhases b dt2 s2)) < eps) /\
  boundaryContinuous phasePreLaunch phaseIgnition 0.05 /\
  boundaryContinuous phaseIgnition phaseGroundLiftoff 0.10 /\
  boundaryContinuous phaseGroundLiftoff phaseAscending 0.35 /\
  boundaryContinuous phaseAscending phaseOrbitalApproach 0.50 /\
  boundaryContinuous phaseOrbitalApproach phaseLaunchPreparation 0.53 /\
  boundaryContinuous phaseLaunchPreparation phaseOrbitalLiftoff 0.58 /\
  (forall dt s,
     let s1 := endPose phaseOrbitalLiftoff 0.72 dt s in
     let s2 := startPose phaseOrbitalLiftoff phaseOrbitalAscent 0.72 dt s in
     rocketPos s2 = rocketPos s1 /\ fairingL s2 = fairingL s1 /\
     fairingR s2 = fairingR s1 /\ satellite s2 = satellite s1) /\
  (forall dt s,
     let s1 := endPose phaseOrbitalAscent 0.84 dt s in
     let s2 := startPose phaseOrbitalAscent phaseFairingSeparation 0.84 dt s in
     rocketPos s2 = rocketPos s1 /\ booster0 s2 = booster0 s1 /\
     booster1 s2 = booster1 s1 /\
     (fairingL s = mkFairing 0 0 -> fairingL s2 = fairingL s1) /\
     (fairingR s = mkFairing 0 0 -> fairingR s2 = fairingR s1) /\
     (sat_visible (satellite s) = true -> satellite s2 = satellite s1)) /\
  (forall dt s,
     let s1 := endPose phaseFairingSeparation 0.94 dt s in
     let s2 := startPose phaseFairingSeparation phaseOrbitalOperations 0.94 dt s in
     rocketPos s2 = rocketPos s1 /\ booster0 s2 = booster0 s1 /\
     booster1 s2 = booster1 s1 /\ fairingL s2 = fairingL s1 /\
     fairingR s2 = fairingR s1) /\
  (forall dt s,
     let s1 := endPose phaseFairingSeparation 0.94 dt s in
     let s2 := startPose phaseFairingSeparation phaseOrbitalOperations 0.94 dt s in
     sat_pos (satellite s2) = orbitPosition (orbitTime s + dt * 0.5) /\
     vy (sat_pos (satellite s2)) <= 125 /\
     (sat_visible (satellite s) = true -> sat_pos (satellite s1) = sat_pos (satellite s)) /\
     (sat_visible (satellite s) = false ->
        sat_pos (satellite s1) = mkVec3 (vx (rocketPos s)) 683 (vz (rocketPos s)))) /\
  (forall p dt s,
     0.84 < p <= 0.94 -> sat_visible (satellite s) = false ->
     583 <= vy (sat_pos (satellite (scene (animatePhases p dt s)))) <= 683).
Proof.
  split; [exact rocketY_continuous | ].
  split; [exact continuous_005 | ].
  split; [exact continuous_010 | ].
  split; [exact continuous_035 | ].
  split; [exact continuous_050 | ].
  split; [exact continuous_053 | ].
  split; [exact continuous_058 | ].
  split; [exact entering_072 | ].
  split; [exact entering_084 | ].
  split; [exact entering_094 | ].
  split; [exact satellite_at_094 | exact reveal_height].
Qed.

(** At [b = 0.35] with tolerance 1, the fairings of the fresh scene at
    [p = 0.84], and the satellite revealed on the fresh scene at
    [p = 0.94] and at [p = 0.9]. *)
Lemma phase_boundary_continuity_witness :
  (exists delta, 0 < delta /\
     forall p dt1 s1 dt2 s2,
       Rabs (p - 0.35) < delta ->
       Rabs (rocketY (animatePhases p dt1 s1) - rocketY (animatePhases 0.35 dt2 s2)) < 1) /\
  fairingL (startPose phaseOrbitalAscent phaseFairingSeparation 0.84 0 initialScene) =
  fairingL (endPose phaseOrbitalAscent 0.84 0 initialScene) /\
  sat_pos (satellite (endPose phaseFairingSeparation 0.94 0 initialScene))
    = mkVec3 (vx (rocketPos initialScene)) 683 (vz (rocketPos initialScene)) /\
  583 <= vy (sat_pos (satellite (scene (animatePhases 0.9 0 initialScene)))) <= 683.
Proof.
  destruct phase_boundary_continuity
    as (Hc & _ & _ & _ & _ & _ & _ & _ & H84 & _ & Hsat & Hreveal).
  split; [ | split; [ | split] ].
  - apply (Hc 0.35); [ | lra].
    unfold boundaries. right; right; left; reflexivity.
  - destruct (H84 0 initialScene) as (_ & _ & _ & HfL & _).
    apply HfL. reflexivity.
  - destruct (Hsat 0 initialScene) as (_ & _ & _ & Hhidden).
    apply Hhidden. reflexivity.
  - apply Hreveal; [lra | reflexivity].
Defined.

(** On a fresh scene the boosters jump when the ascent phase is entered at
    [p = 0.72]: the lift-off phase leaves them where they were built, at
    height 7 and depth 0, and every tick of the following phase up to
    [p = 0.75] puts them at height 0 and depth -2.  The satellite jumps at
    [p = 0.94]: a tick of the fairing phase at 0.94 reveals it at height
    683, 30 above the rocket, and the first tick of orbital operations puts
    it on the orbit circle, at [(125, 0, 0)]. *)
Lemma poses_jump_at_072_and_094 :
  b_pos (booster0 (endPose phaseOrbitalLiftoff 0.72 0 initialScene)) = mkVec3 (-3.5) 7 0 /\
  b_pos (booster0 (startPose phaseOrbitalLiftoff phaseOrbitalAscent 0.72 0 initialScene))
    = mkVec3 (-3.5) 0 (-2) /\
  ~ boundaryContinuous phaseOrbitalLiftoff phaseOrbitalAscent 0.72 /\
  (forall eps, 0 < eps <= 0.03 ->
     b_pos (booster0 (scene (animatePhases (0.72 + eps) 0
                               (scene (animatePhases 0.72 0 initialScene)))))
       = mkVec3 (-3.5) 0 (-2)) /\
  sat_pos (satellite (endPose phaseFairingSeparation 0.94 0 initialScene))
    = mkVec3 0 (launchpadY + 600 + 30) 0 /\
  sat_pos (satellite (startPose phaseFairingSeparation phaseOrbitalOperations 0.94 0
                                initialScene))
    = mkVec3 125 0 0 /\
  ~ boundaryContinuous phaseFairingSeparation phaseOrbitalOperations 0.94.
Proof.
  assert (Hend : b_pos (booster0 (endPose phaseOrbitalLiftoff 0.72 0 initialScene))
                 = mkVec3 (-3.5) 7 0) by reflexivity.
  assert (Hstart : b_pos (booster0 (startPose phaseOrbitalLiftoff phaseOrbitalAscent
                                      0.72 0 initialScene)) = mkVec3 (-3.5) 0 (-2)).
  { unfold startPose, endPose. unfold_phases. unfold boosterPoses.
    replace ((0.72 - 0.72) / 0.12) with 0 by lra. rewrite easeInOutCubic_0.
    unfold stageSep. destruct (Rlt_dec 0.3 0); [exfalso; lra | reflexivity]. }
  assert (Hsat1 : sat_pos (satellite (endPose phaseFairingSeparation 0.94 0 initialScene))
                  = mkVec3 0 (launchpadY + 600 + 30) 0).
  { unfold endPose. unfold_phases. unfold revealSatellite. cbn.
    replace ((0.94 - 0.84) / 0.10) with 1 by lra.
    rewrite easeInOutCubic_1, lerp_1. reflexivity. }
  assert (Hsat2 : sat_pos (satellite (startPose phaseFairingSeparation
                     phaseOrbitalOperations 0.94 0 initialScene)) = mkVec3 125 0 0).
  { unfold startPose, endPose. simpl_scene. unfold orbitPosition.
    change (orbitTime initialScene) with 0.
    replace (0 + 0 * 0.5) with 0 by lra.
    rewrite cos_0, sin_0. unfold orbitRadius, earthRadius. f_equal; lra. }
  split; [exact Hend | ]. split; [exact Hstart | ].
  split.
  { intros Hc. specialize (Hc 0 initialScene).
    apply (f_equal pose_booster0) in Hc. apply (f_equal b_pos) in Hc.
    unfold subjectPoses in Hc. cbn [pose_booster0] in Hc.
    rewrite Hend, Hstart in Hc. apply (f_equal vy) in Hc. cbn in Hc. lra. }
  split.
  { intros eps Heps.
    by_phase 0.72 0 initialScene; try (exfalso; lra).
    by_phase (0.72 + eps) 0 (scene (phaseOrbitalLiftoff 0.72 0 initialScene));
      try (exfalso; lra).
    unfold_phases. unfold boosterPoses.
    pose proof (easeInOutCubic_near_0 ((0.72 + eps - 0.72) / 0.12)) as He.
    unfold stageSep.
    destruct (Rlt_dec 0.3 (easeInOutCubic ((0.72 + eps - 0.72) / 0.12)));
      [exfalso; lra | reflexivity]. }
  split; [exact Hsat1 | ]. split; [exact Hsat2 | ].
  intros Hc. specialize (Hc 0 initialScene).
  apply (f_equal pose_satPos) in Hc.
  unfold subjectPoses in Hc. cbn [pose_satPos] in Hc.
  rewrite Hsat1, Hsat2 in Hc. apply (f_equal vx) in Hc. cbn in Hc. lra.
Qed.

(** ** What a tick recomputes and what it carries over *)

(** The scene after the two visits: boosters peeled away, fairings opened,
    satellite shown, orbit accumulator still 0. *)
Lemma visitedScene_facts :
  orbitTime visitedScene = 0 /\
  vx (b_pos (booster0 visitedScene)) = -50 /\
  vy (b_pos (booster0 visitedScene)) = -10 /\
  b_rotz (booster0 visitedScene) = -0.3 /\
  f_posx (fairingL visitedScene) = -5 /\
  f_rotz (fairingL visitedScene) = -0.2 /\
  sat_visible (satellite visitedScene) = true.
Proof.
  unfold visitedScene.
  by_phase 0.84 0 initialScene; try (exfalso; lra).
  by_phase 0.94 0 (scene (phaseOrbitalAscent 0.84 0 initialScene)); try (exfalso; lra).
  simpl_scene.
  replace ((0.94 - 0.84) / 0.10) with 1 by lra.
  replace ((0.84 - 0.72) / 0.12) with 1 by lra.
  rewrite easeInOutCubic_1, !lerp_1.
  unfold boosterPoses, stageSep.
  destruct (Rlt_dec 0.3 1); [ | exfalso; lra].
  project_scene.
  replace ((1 - 0.3) / (1 - 0.3)) with 1 by lra.
  rewrite !lerp_1.
  repeat split; try reflexivity; lra.
Qed.

(** The rocket height, the exhaust intensity and the telemetry of a tick
    depend on the progress alone. *)
Lemma tick_outputs_pure (p dt1 dt2 : R) (s1 s2 : Scene) :
  rocketY (animatePhases p dt1 s1) = rocketY (animatePhases p dt2 s2) /\
  exhaustIntensity (animatePhases p dt1 s1) = exhaustIntensity (animatePhases p dt2 s2) /\
  mission (animatePhases p dt1 s1) = mission (animatePhases p dt2 s2).
Proof.
  split; [apply rocketY_pure | ].
  by_phase p dt1 s1; by_phase p dt2 s2; try (exfalso; lra);
    unfold_phases; rewrite ?rocketPos_boosterPoses; split; reflexivity.
Qed.

Lemma tick_flags_pure (p dt1 dt2 : R) (s1 s2 : Scene) :
  p <= 0.94 ->
  groundVisible (scene (animatePhases p dt1 s1)) = groundVisible (scene (animatePhases p dt2 s2)) /\
  earthVisible (scene (animatePhases p dt1 s1)) = earthVisible (scene (animatePhases p dt2 s2)) /\
  starsVisible (scene (animatePhases p dt1 s1)) = starsVisible (scene (animatePhases p dt2 s2)).
Proof.
  intros Hp.
  by_phase p dt1 s1; by_phase p dt2 s2; try (exfalso; lra);
    simpl_scene; repeat split; reflexivity.
Qed.

Lemma tick_fairings_pure (p dt1 dt2 : R) (s1 s2 : Scene) :
  0.84 < p <= 0.94 ->
  fairingL (scene (animatePhases p dt1 s1)) = fairingL (scene (animatePhases p dt2 s2)) /\
  fairingR (scene (animatePhases p dt1 s1)) = fairingR (scene (animatePhases p dt2 s2)).
Proof.
  intros Hp.
  by_phase p dt1 s1; by_phase p dt2 s2; try (exfalso; lra);
    simpl_scene; repeat split; reflexivity.
Qed.

Lemma tick_orbit_pure (p dt : R) (s1 s2 : Scene) :
  0.94 < p -> orbitTime s1 = orbitTime s2 ->
  sat_pos (satellite (scene (animatePhases p dt s1)))
    = sat_pos (satellite (scene (animatePhases p dt s2))) /\
  sat_rotx (satellite (scene (animatePhases p dt s1)))
    = sat_rotx (satellite (scene (animatePhases p dt s2))) /\
  sat_roty (satellite (scene (animatePhases p dt s1)))
    = sat_roty (satellite (scene (animatePhases p dt s2))) /\
  panel0 (scene (animatePhases p dt s1)) = panel0 (scene (animatePhases p dt s2)) /\
  panel1 (scene (animatePhases p dt s1)) = panel1 (scene (animatePhases p dt s2)) /\
  orbitTime (scene (animatePhases p dt s1)) = orbitTime (scene (animatePhases p dt s2)).
Proof.
  intros Hp Ho.
  by_phase p dt s1; by_phase p dt s2; try (exfalso; lra).
  simpl_scene. rewrite Ho. repeat split; reflexivity.
Qed.

(** What a tick leaves as it found it. *)
Lemma tick_carries_over (p dt : R) (s : Scene) :
  (p <= 0.72 \/ 0.84 < p ->
     booster0 (scene (animatePhases p dt s)) = booster0 s /\
     booster1 (scene (animatePhases p dt s)) = booster1 s) /\
  (p <= 0.84 \/ 0.94 < p ->
     fairingL (scene (animatePhases p dt s)) = fairingL s /\
     fairingR (scene (animatePhases p dt s)) = fairingR s) /\
  (p <= 0.84 -> satellite (scene (animatePhases p dt s)) = satellite s) /\
  (p <= 0.94 ->
     panel0 (scene (animatePhases p dt s)) = panel0 s /\
     panel1 (scene (animatePhases p dt s)) = panel1 s /\
     orbitTime (scene (animatePhases p dt s)) = orbitTime s) /\
  (0.94 < p ->
     groundVisible (scene (animatePhases p dt s)) = groundVisible s /\
     earthVisible (scene (animatePhases p dt s)) = earthVisible s /\
     starsVisible (scene (animatePhases p dt s)) = starsVisible s /\
     sat_visible (satellite (scene (animatePhases p dt s))) = sat_visible (satellite s)).
Proof.
  repeat split; try (intros [Hp|Hp]); try intros Hp;
    by_phase p dt s; try (exfalso; lra); simpl_scene; reflexivity.
Qed.

(** C2, as the code has it: two ticks at the same progress give the same
    rocket height, exhaust intensity and telemetry whatever scene earlier
    ticks left and whatever the frame time; the ground, Earth and star flags
    are determined by the progress for [p <= 0.94], the fairing poses for
    [0.84 < p <= 0.94], and the satellite pose, panel rotations and orbit
    accumulator for [p > 0.94] by the progress, the frame time and the orbit
    accumulator.  Everything else is carried over from earlier ticks: the
    booster poses outside the ascent phase, the fairing poses outside the
    fairing phase, the satellite (pose and visibility) up to [p = 0.84], the
    panels and the accumulator up to [p = 0.94], and the four visibility
    flags past [p = 0.94]. *)
Theorem tick_recomputes_and_carries (p dt1 dt2 : R) (s1 s2 : Scene) :
  (rocketY (animatePhases p dt1 s1) = rocketY (animatePhases p dt2 s2) /\
   exhaustIntensity (animatePhases p dt1 s1) = exhaustIntensity (animatePhases p dt2 s2) /\
   mission (animatePhases p dt1 s1) = mission (animatePhases p dt2 s2)) /\
  (p <= 0.94 ->
   groundVisible (scene (animatePhases p dt1 s1)) = groundVisible (scene (animatePhases p dt2 s2)) /\
   earthVisible (scene (animatePhases p dt1 s1)) = earthVisible (scene (animatePhases p dt2 s2)) /\
   starsVisible (scene (animatePhases p dt1 s1)) = starsVisible (scene (animatePhases p dt2 s2))) /\
  (0.84 < p <= 0.94 ->
   fairingL (scene (animatePhases p dt1 s1)) = fairingL (scene (animatePhases p dt2 s2)) /\
   fairingR (scene (animatePhases p dt1 s1)) = fairingR (scene (animatePhases p dt2 s2))) /\
  (0.94 < p -> orbitTime s1 = orbitTime s2 ->
   sat_pos (satellite (scene (animatePhases p dt1 s1)))
     = sat_pos (satellite (scene (animatePhases p dt1 s2))) /\
   sat_rotx (satellite (scene (animatePhases p dt1 s1)))
     = sat_rotx (satellite (scene (animatePhases p dt1 s2))) /\
   sat_roty (satellite (scene (animatePhases p dt1 s1)))
     = sat_roty (satellite (scene (animatePhases p dt1 s2))) /\
   panel0 (scene (animatePhases p dt1 s1)) = panel0 (scene (animatePhases p dt1 s2)) /\
   panel1 (scene (animatePhases p dt1 s1)) = panel1 (scene (animatePhases p dt1 s2)) /\
   orbitTime (scene (animatePhases p dt1 s1)) = orbitTime (scene (animatePhases p dt1 s2))) /\
  (p <= 0.72 \/ 0.84 < p ->
     booster0 (scene (animatePhases p dt1 s1)) = booster0 s1 /\
     booster1 (scene (animatePhases p dt1 s1)) = booster1 s1) /\
  (p <= 0.84 \/ 0.94 < p ->
     fairingL (scene (animatePhases p dt1 s1)) = fairingL s1 /\
     fairingR (scene (animatePhases p dt1 s1)) = fairingR s1) /\
  (p <= 0.84 -> satellite (scene (animatePhases p dt1 s1)) = satellite s1) /\
  (p <= 0.94 ->
     panel0 (scene (animatePhases p dt1 s1)) = panel0 s1 /\
     panel1 (scene (animatePhases p dt1 s1)) = panel1 s1 /\
     orbitTime (scene (animatePhases p dt1 s1)) = orbitTime s1) /\
  (0.94 < p ->
     groundVisible (scene (animatePhases p dt1 s1)) = groundVisible s1 /\
     earthVisible (scene (animatePhases p dt1 s1)) = earthVisible s1 /\
     starsVisible (scene (animatePhases p dt1 s1)) = starsVisible s1 /\
     sat_visible (satellite (scene (animatePhases p dt1 s1))) = sat_visible (satellite s1)).
Proof.
  split; [apply tick_outputs_pure | ].
  split; [apply tick_flags_pure | ].
  split; [apply tick_fairings_pure | ].
  split; [apply tick_orbit_pure | ].
  apply tick_carries_over.
Qed.

(** A tick at [p = 0.3] on the fresh scene and on the visited one: the flags
    agree, the boosters are carried over. *)
Lemma tick_recomputes_and_carries_witness :
  groundVisible (scene (animatePhases 0.3 0 initialScene))
    = groundVisible (scene (animatePhases 0.3 0 visitedScene)) /\
  booster0 (scene (animatePhases 0.3 0 visitedScene)) = booster0 visitedScene.
Proof.
  destruct (tick_recomputes_and_carries 0.3 0 0 initialScene visitedScene)
    as (_ & Hflags & _).
  destruct (tick_recomputes_and_carries 0.3 0 0 visitedScene visitedScene)
    as (_ & _ & _ & _ & Hboost & _).
  split.
  - apply Hflags. lra.
  - apply Hboost. left. lra.
Defined.

(** A tick at [p = 0.3] does depend on the phases visited before: on the
    fresh scene it leaves the boosters attached, the fairings closed and the
    satellite hidden, on the visited scene (same progress, same orbit
    accumulator) it leaves the boosters peeled away, the fairings open and
    the satellite shown. *)
Lemma tick_depends_on_history :
  orbitTime initialScene = orbitTime visitedScene /\
  vy (b_pos (booster0 (scene (animatePhases 0.3 0 initialScene)))) = 7 /\
  vy (b_pos (booster0 (scene (animatePhases 0.3 0 visitedScene)))) = -10 /\
  f_posx (fairingL (scene (animatePhases 0.3 0 initialScene))) = 0 /\
  f_posx (fairingL (scene (animatePhases 0.3 0 visitedScene))) = -5 /\
  sat_visible (satellite (scene (animatePhases 0.3 0 initialScene))) = false /\
  sat_visible (satellite (scene (animatePhases 0.3 0 visitedScene))) = true /\
  ~ tickIsPure.
Proof.
  destruct visitedScene_facts as (Ho & Hbx & Hby & Hbr & Hfx & Hfr & Hv).
  destruct (tick_carries_over 0.3 0 initialScene) as (Hb1 & Hf1 & Hs1 & _).
  destruct (tick_carries_over 0.3 0 visitedScene) as (Hb2 & Hf2 & Hs2 & _).
  destruct Hb1 as [Hb1 _]; [left; lra | ].
  destruct Hb2 as [Hb2 _]; [left; lra | ].
  destruct Hf1 as [Hf1 _]; [left; lra | ].
  destruct Hf2 as [Hf2 _]; [left; lra | ].
  rewrite Hb1, Hb2, Hf1, Hf2, Hs1, Hs2 by lra.
  rewrite Ho, Hby, Hfx, Hv.
  repeat split; try reflexivity.
  intros Hpure.
  specialize (Hpure 0.3 0 initialScene visitedScene (eq_sym Ho)).
  apply (f_equal d_visible) in Hpure. unfold derivedState in Hpure.
  cbn [d_visible] in Hpure.
  rewrite Hs1, Hs2, Hv in Hpure by lra.
  cbn in Hpure. congruence.
Qed.

(** ** Progress outside [[0, 1]] *)

Lemma ease_at_1 : easeInOutCubic ((1 - 0.94) / 0.06) = 1.
Proof. replace ((1 - 0.94) / 0.06) with 1 by lra. apply easeInOutCubic_1. Qed.

Lemma ease_past_1 (p : R) : 1 < p -> 1 < easeInOutCubic ((p - 0.94) / 0.06).
Proof. intros Hp. apply easeInOutCubic_above_1. lra. Qed.

(** Below 0 the dispatch takes the pre-launch branch, which ignores [p]. *)
Lemma tick_below_0 (p dt : R) (s : Scene) :
  p < 0 -> animatePhases p dt s = animatePhases 0 dt s.
Proof.
  intros Hp. by_phase p dt s; try (exfalso; lra).
  by_phase 0 dt s; try (exfalso; lra). reflexivity.
Qed.

(** Above 1 the dispatch stays in the last branch; the eased progress is not
    clamped, so the rocket keeps descending below its height at [p = 1]. *)
Lemma tick_above_1 (p dt : R) (s : Scene) :
  1 < p ->
  scene (animatePhases p dt s)
    = setRocketY (lerp (launchpadY + 600) (launchpadY + 580)
                       (easeInOutCubic ((p - 0.94) / 0.06)))
                 (scene (animatePhases 1 dt s)) /\
  mission (animatePhases p dt s) = mission (animatePhases 1 dt s) /\
  exhaustIntensity (animatePhases p dt s) = exhaustIntensity (animatePhases 1 dt s) /\
  rocketY (animatePhases 1 dt s) = 633 /\
  rocketY (animatePhases p dt s) < 633.
Proof.
  intros Hp. pose proof (ease_past_1 p Hp) as He.
  by_phase p dt s; try (exfalso; lra).
  by_phase 1 dt s; try (exfalso; lra).
  unfold rocketY. simpl_scene. rewrite ease_at_1.
  assert (Hmin : Rmin 1 (easeInOutCubic ((p - 0.94) / 0.06) * 3) = Rmin 1 (1 * 3)).
  { rewrite !Rmin_left; lra. }
  rewrite Hmin.
  repeat split; try reflexivity; unfold lerp; unfold_consts; lra.
Qed.

(** Every branch writes the rocket height, so the height a scene holds has
    no effect on the next tick. *)
Lemma tick_forgets_rocketY (p dt y : R) (s : Scene) :
  animatePhases p dt (setRocketY y s) = animatePhases p dt s.
Proof.
  by_phase p dt (setRocketY y s); by_phase p dt s; try (exfalso; lra); reflexivity.
Qed.

(** Below 0 the camera target of the first branch is extrapolated past its
    first keyframe. *)
Lemma camera_below_0 (l : bool -> Vec3 -> Vec3) (mode : CameraAngle)
      (p : R) (o : PhaseOut) :
  p < 0 ->
  vx (fst (cameraTarget l mode 0 o)) = 100 /\
  100 < vx (fst (cameraTarget l mode p o)).
Proof.
  intros Hp. unfold cameraTarget.
  destruct (Rle_dec 0 0.05); [ | exfalso; lra].
  destruct (Rle_dec p 0.05); [ | exfalso; lra].
  cbn [fst vx lerpVectors].
  replace (0 / 0.05) with 0 by lra. rewrite easeInOutCubic_0.
  pose proof (easeInOutCubic_below_0 (p / 0.05)) as He.
  split; [lra | ].
  assert (easeInOutCubic (p / 0.05) < 0) by (apply He; lra).
  lra.
Qed.

(** C9, as the code has it: the progress is used as sampled, without a clamp,
    and the tick is a total function of it.  For [p < 0] the phase dispatch
    computes exactly what it computes for [p = 0] (poses, flags, exhaust
    intensity, telemetry), while the camera target is extrapolated beyond its
    first keyframe.  For [p > 1] the dispatch stays in the orbital branch
    with the telemetry, exhaust intensity and every pose other than the
    rocket's as for [p = 1], while the rocket height follows the unclamped
    ease and lies strictly below the 633 written at [p = 1]; the next tick
    overwrites that height, so every later tick computes what it would have
    computed after a sample of exactly 1. *)
Theorem out_of_range_progress (l : bool -> Vec3 -> Vec3) (mode : CameraAngle)
        (p dt : R) (s : Scene) (o : PhaseOut) :
  (p < 0 ->
     animatePhases p dt s = animatePhases 0 dt s /\
     vx (fst (cameraTarget l mode 0 o)) = 100 /\
     100 < vx (fst (cameraTarget l mode p o))) /\
  (1 < p ->
     scene (animatePhases p dt s)
       = setRocketY (lerp (launchpadY + 600) (launchpadY + 580)
                          (easeInOutCubic ((p - 0.94) / 0.06)))
                    (scene (animatePhases 1 dt s)) /\
     mission (animatePhases p dt s) = mission (animatePhases 1 dt s) /\
     exhaustIntensity (animatePhases p dt s) = exhaustIntensity (animatePhases 1 dt s) /\
     rocketY (animatePhases 1 dt s) = 633 /\
     rocketY (animatePhases p dt s) < 633 /\
     forall p' dt',
       animatePhases p' dt' (scene (animatePhases p dt s))
       = animatePhases p' dt' (scene (animatePhases 1 dt s))).
Proof.
  split; intros Hp.
  - split; [apply tick_below_0; exact Hp | apply camera_below_0; exact Hp].
  - destruct (tick_above_1 p dt s Hp) as (Hs & Hm & Hi & H1 & Hlt).
    repeat split; try assumption.
    intros p' dt'. rewrite Hs. apply tick_forgets_rocketY.
Qed.

Lemma out_of_range_progress_witness :
  animatePhases (-0.1) 0 initialScene = animatePhases 0 0 initialScene /\
  rocketY (animatePhases 1.5 0 initialScene) < 633.
Proof.
  split.
  - apply (out_of_range_progress (fun _ v => v) cinematic (-0.1) 0 initialScene
             (animatePhases 0 0 initialScene)). lra.
  - apply (out_of_range_progress (fun _ v => v) cinematic 1.5 0 initialScene
             (animatePhases 0 0 initialScene)). lra.
Defined.

(** The sample [p = 1.06] is not treated as [p = 1]: the rocket is written
    at height 553 instead of 633. *)
Lemma progress_not_clamped :
  nearestInRange 1.06 = 1 /\
  rocketY (animatePhases 1.06 0 initialScene) = 553 /\
  rocketY (animatePhases (nearestInRange 1.06) 0 initialScene) = 633 /\
  vx (fst (cameraTarget (fun _ v => v) cinematic (nearestInRange (-0.05))
                        (animatePhases 0 0 initialScene))) = 100 /\
  vx (fst (cameraTarget (fun _ v => v) cinematic (-0.05)
                        (animatePhases 0 0 initialScene))) = 160.
Proof.
  assert (Hn : nearestInRange 1.06 = 1).
  { unfold nearestInRange. rewrite Rmin_left by lra. apply Rmax_right. lra. }
  assert (Hm : nearestInRange (-0.05) = 0).
  { unfold nearestInRange. rewrite Rmin_right by lra. apply Rmax_left. lra. }
  rewrite Hn, Hm. split; [reflexivity | ].
  destruct (tick_above_1 1.06 0 initialScene) as (Hs & _ & _ & H1 & _); [lra | ].
  split; [ | split; [exact H1 | ] ].
  - unfold rocketY. rewrite Hs. cbn [rocketPos setRocketY vy].
    replace ((1.06 - 0.94) / 0.06) with 2 by lra.
    rewrite easeInOutCubic_hi by lra. unfold lerp. unfold_consts. lra.
  - unfold cameraTarget.
    destruct (Rle_dec 0 0.05); [ | exfalso; lra].
    destruct (Rle_dec (-0.05) 0.05); [ | exfalso; lra].
    cbn [fst vx lerpVectors].
    replace (0 / 0.05) with 0 by lra.
    replace (-0.05 / 0.05) with (-1) by lra.
    rewrite easeInOutCubic_0, easeInOutCubic_lo by lra.
    split; lra.
Qed.

(** ** The satellite's orbit *)

Lemma orbitRadius_value : orbitRadius = 125.
Proof. unfold orbitRadius, earthRadius. lra. Qed.

Lemma cos_inclination_pos : 0 < cos orbitInclination.
Proof.
  unfold orbitInclination. apply cos_gt_0; pose proof PI_RGT_0; lra.
Qed.

(** The orbital branch puts the satellite at the orbit position of the
    advanced accumulator, whatever the progress. *)
Lemma orbital_tick (p dt : R) (s : Scene) :
  0.94 < p ->
  sat_pos (satellite (scene (animatePhases p dt s))) = orbitPosition (orbitTime s + dt * 0.5) /\
  orbitTime (scene (animatePhases p dt s)) = orbitTime s + dt * 0.5.
Proof.
  intros Hp. by_phase p dt s; try (exfalso; lra). simpl_scene. split; reflexivity.
Qed.

Lemma orbitPosition_radius (a : R) :
  distance (orbitPosition a) (mkVec3 0 0 0) = orbitRadius.
Proof.
  unfold distance, orbitPosition. cbn [vx vy vz].
  replace ((cos a * orbitRadius - 0) ^ 2 +
           (sin a * orbitRadius * sin orbitInclination - 0) ^ 2 +
           (sin a * orbitRadius * cos orbitInclination - 0) ^ 2)
    with (orbitRadius * orbitRadius).
  - apply sqrt_square. rewrite orbitRadius_value. lra.
  - pose proof (sin2_cos2 a) as Ha. pose proof (sin2_cos2 orbitInclination) as Hi.
    unfold Rsqr in Ha, Hi.
    transitivity (orbitRadius * orbitRadius *
                  (sin a * sin a * (sin orbitInclination * sin orbitInclination
                                    + cos orbitInclination * cos orbitInclination)
                   + cos a * cos a)).
    + rewrite Hi. rewrite Rmult_1_r. rewrite Ha. ring.
    + ring.
Qed.

(** An angle whose cosine is 1 is a whole number of turns. *)
Lemma cos_eq_1_turns (d : R) : cos d = 1 -> exists k : Z, d = 2 * IZR k * PI.
Proof.
  intros Hc.
  assert (Hs : sin (d / 2) = 0).
  { pose proof (cos_2a_sin (d / 2)) as H2.
    replace (2 * (d / 2)) with d in H2 by field.
    assert (sin (d / 2) * sin (d / 2) = 0) by lra.
    destruct (Rmult_integral _ _ H); assumption. }
  destruct (sin_eq_0_0 _ Hs) as [k Hk].
  exists k. lra.
Qed.

Lemma turns_cos_sin (a : R) (k : Z) :
  cos (a + 2 * IZR k * PI) = cos a /\ sin (a + 2 * IZR k * PI) = sin a.
Proof.
  assert (Hnat : forall n : nat,
             cos (a + 2 * INR n * PI) = cos a /\ sin (a + 2 * INR n * PI) = sin a)
    by (intros n; split; [apply cos_period | apply sin_period]).
  assert (Hneg : forall n : nat,
             cos (a - 2 * INR n * PI) = cos a /\ sin (a - 2 * INR n * PI) = sin a).
  { intros n. split.
    - rewrite <- (cos_period (a - 2 * INR n * PI) n). f_equal. ring.
    - rewrite <- (sin_period (a - 2 * INR n * PI) n). f_equal. ring. }
  destruct (Z_le_gt_dec 0 k) as [Hk|Hk].
  - rewrite <- (Z2Nat.id k Hk), <- INR_IZR_INZ. apply Hnat.
  - replace (a + 2 * IZR k * PI) with (a - 2 * IZR (- k) * PI)
      by (rewrite opp_IZR; ring).
    rewrite <- (Z2Nat.id (- k)) by lia. rewrite <- INR_IZR_INZ. apply Hneg.
Qed.

(** Two orbit angles give the same position exactly when they are a whole
    number of turns apart. *)
Lemma orbitPosition_eq_iff (a1 a2 : R) :
  orbitPosition a1 = orbitPosition a2 <-> exists k : Z, a2 - a1 = 2 * IZR k * PI.
Proof.
  split.
  - intros Heq.
    assert (Hx : cos a1 * orbitRadius = cos a2 * orbitRadius)
      by (apply (f_equal vx) in Heq; exact Heq).
    assert (Hz : sin a1 * orbitRadius * cos orbitInclination
                 = sin a2 * orbitRadius * cos orbitInclination)
      by (apply (f_equal vz) in Heq; exact Heq).
    rewrite orbitRadius_value in Hx, Hz.
    pose proof cos_inclination_pos as Hi.
    assert (Hc : cos a1 = cos a2) by lra.
    assert (Hs : sin a1 = sin a2).
    { apply (Rmult_eq_reg_r (125 * cos orbitInclination)); [lra | nra]. }
    apply cos_eq_1_turns.
    rewrite cos_minus, <- Hc, <- Hs.
    pose proof (sin2_cos2 a1) as H1. unfold Rsqr in H1. lra.
  - intros [k Hk].
    replace a2 with (a1 + 2 * IZR k * PI) by lra.
    unfold orbitPosition. destruct (turns_cos_sin a1 k) as [-> ->]. reflexivity.
Qed.

(** A whole number of turns that is less than one turn is no turn. *)
Lemma turns_below_one (x : R) (k : Z) :
  x = 2 * IZR k * PI -> Rabs x < 2 * PI -> x = 0.
Proof.
  intros Hx Hlt. pose proof PI_RGT_0 as Hpi.
  destruct (Z_le_gt_dec k (-1)) as [Hk|Hk].
  - apply IZR_le in Hk. exfalso.
    assert (x <= - (2 * PI)) by nra.
    rewrite Rabs_left in Hlt by lra. lra.
  - destruct (Z_le_gt_dec 1 k) as [Hk1|Hk1].
    + apply IZR_le in Hk1. exfalso.
      assert (2 * PI <= x) by nra.
      rewrite Rabs_right in Hlt by lra. lra.
    + assert (k = 0%Z) by lia. subst k. rewrite Hx. lra.
Qed.

(** Two orbit angles less than a full turn apart give different positions. *)
Lemma orbitPosition_distinct (a1 a2 : R) :
  0 < Rabs (a2 - a1) < 2 * PI -> orbitPosition a1 <> orbitPosition a2.
Proof.
  intros [Hpos Hlt] Heq.
  apply orbitPosition_eq_iff in Heq. destruct Heq as [k Hk].
  rewrite (turns_below_one _ k Hk Hlt), Rabs_R0 in Hpos. lra.
Qed.

(** C5: in the Orbital Operations phase ([p > 0.94]) the satellite position
    is the point of the inclined circle at the angle given by the orbit
    accumulator after it has been advanced by half the frame time; it does
    not depend on the progress; its distance from the world origin is the
    constant [earthRadius + 75 = 125]; the inclination is the constant
    [π/8].  Two ticks whose accumulator values differ by less than a full
    turn ([2π]) put the satellite at different positions; so do two ticks on
    the same scene whose frame times differ by less than [4π] seconds,
    whatever the progress.  In general two ticks put the satellite at
    different positions exactly when their accumulator values are not a whole
    number of turns apart. *)
Theorem satellite_orbit_time_driven (p1 p2 dt1 dt2 : R) (s1 s2 : Scene) :
  0.94 < p1 -> 0.94 < p2 ->
  let a1 := orbitTime s1 + dt1 * 0.5 in
  let a2 := orbitTime s2 + dt2 * 0.5 in
  let q1 := sat_pos (satellite (scene (animatePhases p1 dt1 s1))) in
  let q2 := sat_pos (satellite (scene (animatePhases p2 dt2 s2))) in
  q1 = mkVec3 (cos a1 * orbitRadius)
              (sin a1 * orbitRadius * sin (PI / 8))
              (sin a1 * orbitRadius * cos (PI / 8)) /\
  orbitTime (scene (animatePhases p1 dt1 s1)) = a1 /\
  distance q1 (mkVec3 0 0 0) = earthRadius + 75 /\
  (a1 = a2 -> q1 = q2) /\
  (q1 = q2 <-> exists k : Z, a2 - a1 = 2 * IZR k * PI) /\
  (0 < Rabs (a2 - a1) < 2 * PI -> q1 <> q2) /\
  (s1 = s2 -> dt1 <> dt2 -> Rabs (dt2 - dt1) < 4 * PI -> q1 <> q2).
Proof.
  intros Hp1 Hp2. cbv zeta.
  destruct (orbital_tick p1 dt1 s1 Hp1) as [-> ->].
  destruct (orbital_tick p2 dt2 s2 Hp2) as [-> _].
  split; [reflexivity | ]. split; [reflexivity | ].
  split; [apply orbitPosition_radius | ].
  split; [intros ->; reflexivity | ].
  split; [apply orbitPosition_eq_iff | ].
  split; [apply orbitPosition_distinct | ].
  intros -> Hne Hlt. apply orbitPosition_distinct.
  replace (orbitTime s2 + dt2 * 0.5 - (orbitTime s2 + dt1 * 0.5))
    with ((dt2 - dt1) * 0.5) by lra.
  assert (Hd : dt2 - dt1 <> 0) by lra.
  pose proof (Rabs_pos_lt _ Hd) as Hpos.
  rewrite Rabs_mult, (Rabs_right 0.5) by lra. lra.
Qed.

(** Two ticks at [p = 1] on the fresh scene, one second of frame time
    apart: the satellite stays at distance 125 and moves. *)
Lemma satellite_orbit_time_driven_witness :
  distance (sat_pos (satellite (scene (animatePhases 1 0 initialScene)))) (mkVec3 0 0 0)
    = earthRadius + 75 /\
  sat_pos (satellite (scene (animatePhases 1 0 initialScene)))
    <> sat_pos (satellite (scene (animatePhases 1 1 initialScene))).
Proof.
  assert (H1 : 0.94 < 1) by lra.
  destruct (satellite_orbit_time_driven 1 1 0 1 initialScene initialScene H1 H1)
    as (_ & _ & Hd & _ & _ & _ & Hdt).
  split; [exact Hd | ].
  apply Hdt; [reflexivity | lra | ].
  pose proof PI2_1 as Hpi. rewrite Rabs_right by lra. lra.
Defined.

(** ** Camera smoothing *)

Lemma lerpFactor_range (p : R) : 0.012 <= lerpFactor p <= 0.04.
Proof. unfold lerpFactor. destruct (Rle_dec p 0.51); lra. Qed.

Lemma distance_nonneg (a b : Vec3) : 0 <= distance a b.
Proof. unfold distance. apply sqrt_pos. Qed.

(** Scaling the three coordinate differences by [k >= 0] scales the distance
    by [k]. *)
Lemma distance_scale (k : R) (a b a' b' : Vec3) :
  0 <= k ->
  vx a' - vx b' = k * (vx a - vx b) ->
  vy a' - vy b' = k * (vy a - vy b) ->
  vz a' - vz b' = k * (vz a - vz b) ->
  distance a' b' = k * distance a b.
Proof.
  intros Hk Hx Hy Hz. unfold distance. rewrite Hx, Hy, Hz.
  replace ((k * (vx a - vx b)) ^ 2 + (k * (vy a - vy b)) ^ 2 + (k * (vz a - vz b)) ^ 2)
    with (k * k * ((vx a - vx b) ^ 2 + (vy a - vy b) ^ 2 + (vz a - vz b) ^ 2)) by ring.
  rewrite sqrt_mult_alt by nra.
  rewrite sqrt_square by exact Hk. reflexivity.
Qed.

(** One smoothing step: the remaining distance shrinks by [1 - lerpFactor],
    and the step taken is [lerpFactor] of the distance. *)
Lemma smoothCamera_remaining (p : R) (current target : Vec3) :
  distance (smoothCamera p current target) target
    = (1 - lerpFactor p) * distance current target.
Proof.
  pose proof (lerpFactor_range p).
  apply distance_scale; [lra | | | ]; unfold smoothCamera, vlerp; cbn [vx vy vz]; ring.
Qed.

Lemma smoothCamera_travelled (p : R) (current target : Vec3) :
  distance current (smoothCamera p current target)
    = lerpFactor p * distance current target.
Proof.
  pose proof (lerpFactor_range p).
  apply distance_scale; [lra | | | ]; unfold smoothCamera, vlerp; cbn [vx vy vz]; ring.
Qed.

(** After any run of ticks the remaining distance is at most [0.988 ^ n] of
    the initial one. *)
Lemma followTarget_bound (ps : list R) (current target : Vec3) :
  distance (followTarget ps current target) target
    <= 0.988 ^ List.length ps * distance current target.
Proof.
  revert current. induction ps as [|p ps IH]; intros current; cbn [followTarget List.length].
  - rewrite pow_O. lra.
  - eapply Rle_trans; [apply IH | ].
    rewrite smoothCamera_remaining.
    pose proof (lerpFactor_range p) as Hf.
    pose proof (distance_nonneg current target) as Hd.
    assert (Hpow : 0 <= 0.988 ^ List.length ps) by (apply pow_le; lra).
    cbn [pow].
    assert ((1 - lerpFactor p) * distance current target <= 0.988 * distance current target)
      by nra.
    nra.
Qed.

Lemma followTarget_monotone (ps : list R) (current target : Vec3) :
  distance (followTarget ps current target) target <= distance current target.
Proof.
  revert current. induction ps as [|p ps IH]; intros current; cbn [followTarget].
  - lra.
  - eapply Rle_trans; [apply IH | ].
    rewrite smoothCamera_remaining.
    pose proof (lerpFactor_range p). pose proof (distance_nonneg current target). nra.
Qed.

Lemma followTarget_converges (current target : Vec3) (eps : R) :
  0 < eps ->
  exists N : nat, forall ps,
    (N <= List.length ps)%nat ->
    distance (followTarget ps current target) target < eps.
Proof.
  intros Heps.
  pose proof (distance_nonneg current target) as Hd.
  set (d := distance current target) in *.
  assert (Hy : 0 < eps / (d + 1)) by (apply Rdiv_lt_0_compat; lra).
  destruct (pow_lt_1_zero 0.988) with (y := eps / (d + 1)) as [N HN]; [ | exact Hy | ].
  { rewrite Rabs_right; lra. }
  exists N. intros ps Hlen.
  eapply Rle_lt_trans; [apply followTarget_bound | ]. fold d.
  specialize (HN (List.length ps) Hlen).
  rewrite Rabs_right in HN by (apply Rle_ge, pow_le; lra).
  assert (Hpow : 0 <= 0.988 ^ List.length ps) by (apply pow_le; lra).
  assert (Hmul : eps / (d + 1) * (d + 1) = eps) by (field; lra).
  nra.
Qed.

(** C8: with the target held fixed, one smoothing step (a linear
    interpolation towards the target by 0.012 when [p <= 0.51] and by 0.04
    otherwise) multiplies the distance to the target by [1 - lerpFactor p],
    a factor of 0.988 or 0.96, so the distance does not increase; the camera
    does not overshoot, since the stretch travelled and the stretch
    remaining add up to the distance before the step; and over a run of
    ticks, whatever the progress samples, the distance is at most
    [0.988 ^ n] of the initial one and so falls below every positive
    tolerance. *)
Theorem camera_smoothing_converges (p : R) (current target : Vec3) :
  lerpFactor p = (if Rle_dec p 0.51 then 0.012 else 0.04) /\
  0 < 1 - lerpFactor p < 1 /\
  distance (smoothCamera p current target) target
    = (1 - lerpFactor p) * distance current target /\
  distance (smoothCamera p current target) target <= distance current target /\
  distance current (smoothCamera p current target)
    + distance (smoothCamera p current target) target = distance current target /\
  (forall ps, distance (followTarget ps current target) target
                <= 0.988 ^ List.length ps * distance current target) /\
  (forall ps, distance (followTarget (ps ++ [p]) current target) target
                <= distance (followTarget ps current target) target) /\
  (forall eps, 0 < eps ->
     exists N : nat, forall ps,
       (N <= List.length ps)%nat ->
       distance (followTarget ps current target) target < eps).
Proof.
  pose proof (lerpFactor_range p) as Hf.
  pose proof (distance_nonneg current target) as Hd.
  split; [reflexivity | ].
  split; [lra | ].
  split; [apply smoothCamera_remaining | ].
  split; [rewrite smoothCamera_remaining; nra | ].
  split.
  { rewrite smoothCamera_remaining, smoothCamera_travelled. ring. }
  split; [intros ps; apply followTarget_bound | ].
  split.
  { intros ps. revert current Hd.
    induction ps as [|q ps IH]; intros current Hd; cbn [followTarget app].
    - rewrite smoothCamera_remaining. nra.
    - apply IH. apply distance_nonneg. }
  intros eps Heps. apply followTarget_converges. exact Heps.
Qed.

(** From the initial camera position towards the first keyframe, within
    one unit after enough ticks. *)
Lemma camera_smoothing_converges_witness :
  exists N : nat, forall ps,
    (N <= List.length ps)%nat ->
    distance (followTarget ps (mkVec3 0 100 300) (mkVec3 100 20 100)) (mkVec3 100 20 100) < 1.
Proof.
  destruct (camera_smoothing_converges 0 (mkVec3 0 100 300) (mkVec3 100 20 100))
    as (_ & _ & _ & _ & _ & _ & _ & H).
  apply H. lra.
Defined.

(** ** The exhaust pool *)

Section ExhaustFacts.

Variable random : nat -> R.
Variables colorHot colorWarm colorCool : Vec3.

Abbreviation updateParticle' := (updateParticle random colorHot colorWarm colorCool).
Abbreviation updateExhaust' := (updateExhaust random colorHot colorWarm colorCool).
Abbreviation runExhaust' := (runExhaust random colorHot colorWarm colorCool).
Abbreviation integrate' := (integrate colorHot colorWarm colorCool).

Lemma integrate_particle (dt i : R) (p : Particle) :
  fst (integrate' dt i p)
    = mkParticle (mkVec3 (vx (p_pos p) + vx (p_vel p) * dt)
                         (vy (p_pos p) + vy (p_vel p) * dt)
                         (vz (p_pos p) + vz (p_vel p) * dt))
                 (mkVec3 (vx (p_vel p)) (vy (p_vel p) * 0.99) (vz (p_vel p)))
                 (age p) (lifetime p) /\
  slot_pos (snd (integrate' dt i p)) = p_pos (fst (integrate' dt i p)).
Proof. split; reflexivity. Qed.

(** The three ways through one loop iteration. *)
Lemma updateParticle_in_flight (dt i : R) (ps : Particle * Slot) (k : nat) :
  age (fst ps) + dt <= lifetime (fst ps) ->
  updateParticle' dt i ps k
    = (integrate' dt i (mkParticle (p_pos (fst ps)) (p_vel (fst ps))
                                   (age (fst ps) + dt) (lifetime (fst ps))), k).
Proof.
  intros H. unfold updateParticle. cbn [age lifetime].
  destruct (Rlt_dec (lifetime (fst ps)) (age (fst ps) + dt)); [exfalso; lra | reflexivity].
Qed.

Lemma updateParticle_respawned (dt i : R) (ps : Particle * Slot) (k : nat) :
  lifetime (fst ps) < age (fst ps) + dt -> random k < i ->
  updateParticle' dt i ps k = (integrate' dt i (respawn random (S k)), (k + 7)%nat).
Proof.
  intros H Hr. unfold updateParticle. cbn [age lifetime].
  destruct (Rlt_dec (lifetime (fst ps)) (age (fst ps) + dt)); [ | exfalso; lra].
  destruct (Rlt_dec (random k) i); [reflexivity | exfalso; lra].
Qed.

Lemma updateParticle_hidden (dt i : R) (ps : Particle * Slot) (k : nat) :
  lifetime (fst ps) < age (fst ps) + dt -> i <= random k ->
  updateParticle' dt i ps k
    = ((mkParticle (p_pos (fst ps)) (p_vel (fst ps)) (age (fst ps) + dt)
                   (lifetime (fst ps)),
        hideSlot (snd ps)), S k).
Proof.
  intros H Hr. unfold updateParticle. cbn [age lifetime].
  destruct (Rlt_dec (lifetime (fst ps)) (age (fst ps) + dt)); [ | exfalso; lra].
  destruct (Rlt_dec (random k) i); [exfalso; lra | reflexivity].
Qed.

(** The values a respawn draws. *)
Lemma respawn_ranges (k : nat) :
  unitDraws random ->
  age (respawn random k) = 0 /\
  0.8 <= lifetime (respawn random k) < 1.5 /\
  -0.75 <= vx (p_pos (respawn random k)) <= 0.75 /\
  vy (p_pos (respawn random k)) = 0 /\
  -0.75 <= vz (p_pos (respawn random k)) <= 0.75 /\
  -4 <= vx (p_vel (respawn random k)) <= 4 /\
  -80 <= vy (p_vel (respawn random k)) <= -50 /\
  -4 <= vz (p_vel (respawn random k)) <= 4.
Proof.
  intros Hr. unfold respawn. cbn [age lifetime p_pos p_vel vx vy vz]. unfold lerp.
  pose proof (Hr k). pose proof (Hr (k + 1)%nat). pose proof (Hr (k + 2)%nat).
  pose proof (Hr (k + 3)%nat). pose proof (Hr (k + 4)%nat). pose proof (Hr (k + 5)%nat).
  repeat split; lra.
Qed.

(** C3, as the code has it: every call adds [deltaTime] to the age of every
    particle.  If the updated age exceeds the lifetime, then when the draw is
    below the intensity the particle respawns (age 0, a new lifetime in
    [[0.8, 1.5]], a position offset with x, z in [[-0.75, 0.75]] and y = 0,
    a velocity with x, z in [[-4, 4]] and y in [[-80, -50]]) and is then
    integrated in the same call like a particle in flight, and otherwise
    only the rendered y-position is set to the sentinel -999 and nothing else
    of the particle or its slot changes.  A particle whose updated age does
    not exceed its lifetime is integrated: position += velocity * deltaTime,
    velocity.y *= 0.99, and the rendered position follows. *)
Theorem particle_update_rule (dt i : R) (ps : Particle * Slot) (k : nat) :
  unitDraws random ->
  let p := fst ps in
  let aged := mkParticle (p_pos p) (p_vel p) (age p + dt) (lifetime p) in
  let r := updateParticle' dt i ps k in
  (age p + dt <= lifetime p ->
     r = (integrate' dt i aged, k) /\
     age (fst (fst r)) = age p + dt /\
     lifetime (fst (fst r)) = lifetime p /\
     p_pos (fst (fst r)) = mkVec3 (vx (p_pos p) + vx (p_vel p) * dt)
                                  (vy (p_pos p) + vy (p_vel p) * dt)
                                  (vz (p_pos p) + vz (p_vel p) * dt) /\
     p_vel (fst (fst r)) = mkVec3 (vx (p_vel p)) (vy (p_vel p) * 0.99) (vz (p_vel p)) /\
     slot_pos (snd (fst r)) = p_pos (fst (fst r))) /\
  (lifetime p < age p + dt -> random k < i ->
     let fresh := respawn random (S k) in
     r = (integrate' dt i fresh, (k + 7)%nat) /\
     age fresh = 0 /\ 0.8 <= lifetime fresh <= 1.5 /\
     -0.75 <= vx (p_pos fresh) <= 0.75 /\ vy (p_pos fresh) = 0 /\
     -0.75 <= vz (p_pos fresh) <= 0.75 /\
     -4 <= vx (p_vel fresh) <= 4 /\ -80 <= vy (p_vel fresh) <= -50 /\
     -4 <= vz (p_vel fresh) <= 4 /\
     age (fst (fst r)) = 0 /\ lifetime (fst (fst r)) = lifetime fresh /\
     p_pos (fst (fst r)) = mkVec3 (vx (p_pos fresh) + vx (p_vel fresh) * dt)
                                  (vy (p_vel fresh) * dt)
                                  (vz (p_pos fresh) + vz (p_vel fresh) * dt) /\
     p_vel (fst (fst r)) = mkVec3 (vx (p_vel fresh)) (vy (p_vel fresh) * 0.99)
                                  (vz (p_vel fresh)) /\
     slot_pos (snd (fst r)) = p_pos (fst (fst r))) /\
  (lifetime p < age p + dt -> i <= random k ->
     r = ((aged, hideSlot (snd ps)), S k) /\
     vy (slot_pos (snd (fst r))) = HIDDEN_Y /\ HIDDEN_Y = -999 /\
     vx (slot_pos (snd (fst r))) = vx (slot_pos (snd ps)) /\
     vz (slot_pos (snd (fst r))) = vz (slot_pos (snd ps)) /\
     slot_color (snd (fst r)) = slot_color (snd ps) /\
     slot_size (snd (fst r)) = slot_size (snd ps) /\
     slot_alpha (snd (fst r)) = slot_alpha (snd ps)).
Proof.
  intros Hr. cbv zeta. split; [ | split].
  - intros H. rewrite updateParticle_in_flight by exact H.
    repeat split; reflexivity.
  - intros H Hd. rewrite updateParticle_respawned by assumption.
    destruct (respawn_ranges (S k) Hr) as (Ha & Hl & Hx & Hy & Hz & Hvx & Hvy & Hvz).
    cbn [fst snd]. destruct (integrate_particle dt i (respawn random (S k))) as [-> ->].
    cbn [age lifetime p_pos p_vel]. rewrite Hy.
    repeat split; try reflexivity; try lra.
    f_equal. lra.
  - intros H Hd. rewrite updateParticle_hidden by assumption.
    repeat split.
Qed.

End ExhaustFacts.

(** With every draw equal to [0.5], a dead particle and full intensity: the
    respawned particle has age 0 and a lifetime of 1.15. *)
Lemma particle_update_rule_witness :
  age (fst (fst (updateParticle (fun _ => 0.5) (mkVec3 0 0 0) (mkVec3 0 0 0) (mkVec3 0 0 0)
                                0.1 1 (deadParticle, hiddenSlot) 0))) = 0.
Proof.
  assert (Hd : unitDraws (fun _ => 0.5)) by (intros n; lra).
  destruct (particle_update_rule (fun _ => 0.5) (mkVec3 0 0 0) (mkVec3 0 0 0) (mkVec3 0 0 0)
              0.1 1 (deadParticle, hiddenSlot) 0 Hd) as (_ & H & _).
  cbv zeta in H. cbn [fst age lifetime deadParticle] in H.
  destruct H as (_ & _ & _ & _ & _ & _ & _ & _ & _ & Hage & _); [lra | lra | ].
  exact Hage.
Defined.

(** A respawned particle is integrated in the same call: with every draw 0,
    a frame of 0.1 s and full intensity, a dead particle ends the call with
    age 0, at x = -1.15 and y = -5 rather than within the spawn offsets, and
    with a vertical velocity of -49.5, above the drawn range. *)
Lemma respawned_particle_is_integrated :
  let r := updateParticle (fun _ => 0) (mkVec3 0 0 0) (mkVec3 0 0 0) (mkVec3 0 0 0)
                          0.1 1 (deadParticle, hiddenSlot) 0 in
  age (fst (fst r)) = 0 /\
  vx (p_pos (fst (fst r))) = -1.15 /\
  vy (p_pos (fst (fst r))) = -5 /\
  vy (p_vel (fst (fst r))) = -49.5 /\
  vx (p_pos (fst (fst r))) < -0.75 /\
  -50 < vy (p_vel (fst (fst r))).
Proof.
  cbv zeta. rewrite updateParticle_respawned by (cbn; lra).
  cbn [fst integrate respawn age p_pos p_vel vx vy vz]. unfold lerp.
  repeat split; lra.
Qed.

(** ** The pool over a run of calls *)

Section PoolFacts.

Variable random : nat -> R.
Variables colorHot colorWarm colorCool : Vec3.

Abbreviation step := (updateParticle random colorHot colorWarm colorCool).
Abbreviation sweep := (updateExhaust random colorHot colorWarm colorCool).
Abbreviation run := (runExhaust random colorHot colorWarm colorCool).

(** A property that every loop iteration establishes holds of the whole
    pool after a call. *)
Lemma sweep_Forall (Q : Particle * Slot -> Prop) (dt i : R) :
  (forall ps k, Q (fst (step dt i ps k))) ->
  forall pool k, Forall Q (fst (sweep dt i pool k)).
Proof.
  intros HQ pool. induction pool as [|ps rest IH]; intros k; cbn [updateExhaust fst].
  - constructor.
  - constructor; [apply HQ | apply IH].
Qed.


Lemma sweep_length (dt i : R) (pool : Pool) (k : nat) :
  List.length (fst (sweep dt i pool k)) = List.length pool.
Proof.
  revert k. induction pool as [|ps rest IH]; intros k; cbn [updateExhaust fst List.length].
  - reflexivity.
  - rewrite IH. reflexivity.
Qed.

Lemma run_length (calls : list (R * R)) (pool : Pool) (k : nat) :
  List.length (fst (run calls pool k)) = List.length pool.
Proof.
  revert pool k. induction calls as [|[dt i] rest IH]; intros pool k; cbn [runExhaust].
  - reflexivity.
  - rewrite IH. apply sweep_length.
Qed.

(** After a loop iteration a particle past its lifetime has the sentinel in
    its slot. *)
Lemma step_dead_hidden (dt i : R) (ps : Particle * Slot) (k : nat) :
  unitDraws random ->
  dead (fst (fst (step dt i ps k))) ->
  vy (slot_pos (snd (fst (step dt i ps k)))) = HIDDEN_Y.
Proof.
  intros Hr. unfold dead.
  destruct (Rlt_dec (lifetime (fst ps)) (age (fst ps) + dt)) as [Hlt|Hge].
  - destruct (Rlt_dec (random k) i) as [Hd|Hd].
    + rewrite updateParticle_respawned by assumption.
      destruct (respawn_ranges random (S k) Hr) as (Ha & Hl & _).
      cbn [fst integrate age lifetime]. lra.
    + rewrite updateParticle_hidden by lra. reflexivity.
  - rewrite updateParticle_in_flight by lra.
    cbn [fst integrate age lifetime]. lra.
Qed.





(** After at least one call the dead particles are exactly hidden ones. *)
Lemma run_dead_hidden (calls : list (R * R)) (pool : Pool) (k : nat) :
  unitDraws random -> calls <> [] ->
  Forall (fun ps => dead (fst ps) -> vy (slot_pos (snd ps)) = HIDDEN_Y)
         (fst (run calls pool k)).
Proof.
  intros Hr. revert pool k.
  induction calls as [|[dt i] rest IH]; intros pool k Hne; [congruence | ].
  cbn [runExhaust]. destruct rest as [|c rest'].
  - cbn [runExhaust]. apply sweep_Forall. intros ps k'. apply step_dead_hidden. exact Hr.
  - apply IH. discriminate.
Qed.




Lemma initialPool_length : List.length initialPool = PARTICLE_COUNT.
Proof. unfold initialPool. apply repeat_length. Qed.


Lemma initialPool_hidden :
  Forall (fun ps => dead (fst ps) /\ vy (slot_pos (snd ps)) = HIDDEN_Y) initialPool.
Proof.
  apply Forall_forall. intros ps Hin. unfold initialPool in Hin.
  apply repeat_spec in Hin. subst ps. unfold dead. cbn. split; [lra | reflexivity].
Qed.

(** C6: the pool is built with [PARTICLE_COUNT = 5001] entries and no call
    of [updateExhaust] changes the number of entries, so after any run of
    calls, with any frame times, intensities and draws, the pool has 5001
    entries; a particle that is past its lifetime after a call keeps its
    entry, with the sentinel -999 as its rendered y-position. *)
Theorem pool_capacity_invariant (calls : list (R * R)) (k : nat) :
  PARTICLE_COUNT = 5001%nat /\
  List.length initialPool = PARTICLE_COUNT /\
  List.length (fst (run calls initialPool k)) = PARTICLE_COUNT /\
  (forall dt i pool k', List.length (fst (sweep dt i pool k')) = List.length pool) /\
  (unitDraws random ->
   Forall (fun ps => dead (fst ps) -> vy (slot_pos (snd ps)) = HIDDEN_Y)
          (fst (run calls initialPool k))).
Proof.
  split; [reflexivity | ].
  split; [apply initialPool_length | ].
  split; [rewrite run_length; apply initialPool_length | ].
  split; [intros; apply sweep_length | ].
  intros Hr. destruct calls as [|c rest].
  - cbn [runExhaust fst]. eapply Forall_impl; [ | apply initialPool_hidden].
    intros ps [_ H] _. exact H.
  - apply run_dead_hidden; [exact Hr | discriminate].
Qed.


End PoolFacts.

(** Three calls on the initial pool with the draws all [0.5]. *)
Lemma pool_capacity_invariant_witness :
  Forall (fun ps => dead (fst ps) -> vy (slot_pos (snd ps)) = HIDDEN_Y)
         (fst (runExhaust (fun _ => 0.5) (mkVec3 0 0 0) (mkVec3 0 0 0) (mkVec3 0 0 0)
                          [(0.016, 1); (0.016, 0.5); (0.016, 0)] initialPool 0)).
Proof.
  apply (pool_capacity_invariant (fun _ => 0.5) (mkVec3 0 0 0) (mkVec3 0 0 0) (mkVec3 0 0 0)
           [(0.016, 1); (0.016, 0.5); (0.016, 0)] 0).
  intros n. lra.
Defined.


(** * Further properties of the code *)

(** ** Shape of the easing functions *)

Lemma cube_monotone (a b : R) : a <= b -> a * a * a <= b * b * b.
Proof.
  intros H.
  assert (Hq : 0 <= a * a + a * b + b * b).
  { replace (a * a + a * b + b * b)
      with ((a + b / 2) * (a + b / 2) + 3 / 4 * (b * b)) by field.
    pose proof (Rle_0_sqr (a + b / 2)) as H1. pose proof (Rle_0_sqr b) as H2.
    unfold Rsqr in H1, H2. lra. }
  assert (Hp : 0 <= (b - a) * (a * a + a * b + b * b))
    by (apply Rmult_le_pos; lra).
  replace (b * b * b) with (a * a * a + (b - a) * (a * a + a * b + b * b)) by ring.
  lra.
Qed.

Lemma fifth_monotone (a b : R) :
  a <= b -> a * a * a * a * a <= b * b * b * b * b.
Proof.
  intros H.
  assert (Hc : a * a * a <= b * b * b) by (apply cube_monotone; exact H).
  destruct (Rle_dec 0 a) as [Ha|Ha].
  - assert (0 <= a * a * a) by (assert (0 <= a * a) by nra; nra).
    assert (a * a <= b * b) by nra.
    assert (0 <= a * a) by nra.
    nra.
  - destruct (Rle_dec 0 b) as [Hb|Hb].
    + assert (a * a * a * a * a <= 0).
      { assert (0 <= (a * a) * (a * a)) by nra. nra. }
      assert (0 <= b * b * b * b * b).
      { assert (0 <= (b * b) * (b * b)) by nra. nra. }
      lra.
    + assert (b * b <= a * a) by nra.
      assert (b * b * b <= 0) by (assert (0 <= b * b) by nra; nra).
      assert (0 <= b * b) by nra.
      nra.
Qed.

Lemma easeInOutCubic_monotone (t1 t2 : R) :
  t1 <= t2 -> easeInOutCubic t1 <= easeInOutCubic t2.
Proof.
  intros H.
  destruct (Rlt_dec t1 0.5) as [H1|H1]; destruct (Rlt_dec t2 0.5) as [H2|H2].
  - rewrite !easeInOutCubic_lo by lra. pose proof (cube_monotone t1 t2 H). lra.
  - rewrite easeInOutCubic_lo, easeInOutCubic_hi by lra.
    pose proof (cube_monotone t1 0.5). pose proof (cube_monotone (1 - t2) 0.5). lra.
  - exfalso; lra.
  - rewrite !easeInOutCubic_hi by lra.
    pose proof (cube_monotone (1 - t2) (1 - t1)). lra.
Qed.

Lemma easeInOutQuint_monotone (t1 t2 : R) :
  t1 <= t2 -> easeInOutQuint t1 <= easeInOutQuint t2.
Proof.
  intros H.
  destruct (Rlt_dec t1 0.5) as [H1|H1]; destruct (Rlt_dec t2 0.5) as [H2|H2].
  - rewrite !easeInOutQuint_lo by lra. pose proof (fifth_monotone t1 t2 H). lra.
  - rewrite easeInOutQuint_lo, easeInOutQuint_hi by lra.
    pose proof (fifth_monotone t1 0.5). pose proof (fifth_monotone (1 - t2) 0.5). lra.
  - exfalso; lra.
  - rewrite !easeInOutQuint_hi by lra.
    pose proof (fifth_monotone (1 - t2) (1 - t1)). lra.
Qed.

Lemma easeInOutCubic_symmetric (t : R) : easeInOutCubic (1 - t) = 1 - easeInOutCubic t.
Proof.
  destruct (Rlt_dec t 0.5) as [H|H].
  - rewrite (easeInOutCubic_lo t), easeInOutCubic_hi by lra. ring.
  - destruct (Req_dec t 0.5) as [->|Hne].
    + replace (1 - 0.5) with 0.5 by lra. rewrite easeInOutCubic_hi by lra. lra.
    + rewrite (easeInOutCubic_hi t), easeInOutCubic_lo by lra. ring.
Qed.

Lemma easeInOutQuint_symmetric (t : R) : easeInOutQuint (1 - t) = 1 - easeInOutQuint t.
Proof.
  destruct (Rlt_dec t 0.5) as [H|H].
  - rewrite (easeInOutQuint_lo t), easeInOutQuint_hi by lra. ring.
  - destruct (Req_dec t 0.5) as [->|Hne].
    + replace (1 - 0.5) with 0.5 by lra. rewrite easeInOutQuint_hi by lra. lra.
    + rewrite (easeInOutQuint_hi t), easeInOutQuint_lo by lra. ring.
Qed.

(** X1: both easing functions fix 0 and 1, are nondecreasing on the whole
    line (also across the switch of formula at [t = 0.5]), are point-symmetric
    about [(1/2, 1/2)], and map [[0, 1]] into [[0, 1]]. *)
Theorem easing_shape :
  (easeInOutCubic 0 = 0 /\ easeInOutCubic 1 = 1 /\
   easeInOutQuint 0 = 0 /\ easeInOutQuint 1 = 1) /\
  (forall t1 t2, t1 <= t2 ->
     easeInOutCubic t1 <= easeInOutCubic t2 /\ easeInOutQuint t1 <= easeInOutQuint t2) /\
  (forall t, easeInOutCubic (1 - t) = 1 - easeInOutCubic t /\
             easeInOutQuint (1 - t) = 1 - easeInOutQuint t) /\
  (forall t, 0 <= t <= 1 ->
     0 <= easeInOutCubic t <= 1 /\ 0 <= easeInOutQuint t <= 1).
Proof.
  split.
  { repeat split; [apply easeInOutCubic_0 | apply easeInOutCubic_1
                  | apply easeInOutQuint_0 | apply easeInOutQuint_1]. }
  split.
  { intros t1 t2 H. split;
      [apply easeInOutCubic_monotone | apply easeInOutQuint_monotone]; exact H. }
  split.
  { intros t. split; [apply easeInOutCubic_symmetric | apply easeInOutQuint_symmetric]. }
  intros t Ht. split; [apply easeInOutCubic_range | apply easeInOutQuint_range]; exact Ht.
Qed.

Lemma easing_shape_witness :
  easeInOutCubic 0.25 <= easeInOutCubic 0.75 /\ 0 <= easeInOutQuint 0.5 <= 1.
Proof.
  destruct easing_shape as (_ & Hm & _ & Hr).
  split.
  - apply (Hm 0.25 0.75). lra.
  - apply (Hr 0.5). lra.
Defined.

(** ** The rocket's height over the progress *)

(** Collects, for the eased progress values in the goal, their range and
    their order. *)
Ltac ease_range :=
  repeat match goal with
  | |- context [easeInOutCubic ?t] =>
      lazymatch goal with
      | _ : 0 <= easeInOutCubic t <= 1 |- _ => fail
      | _ => assert (0 <= easeInOutCubic t <= 1) by (apply easeInOutCubic_range; lra)
      end
  | |- context [easeInOutQuint ?t] =>
      lazymatch goal with
      | _ : 0 <= easeInOutQuint t <= 1 |- _ => fail
      | _ => assert (0 <= easeInOutQuint t <= 1) by (apply easeInOutQuint_range; lra)
      end
  end.

Ltac ease_order :=
  try match goal with
  | |- context [easeInOutCubic ?a] =>
      match goal with
      | |- context [easeInOutCubic ?b] =>
          tryif constr_eq a b then fail
          else assert (easeInOutCubic a <= easeInOutCubic b)
                 by (apply easeInOutCubic_monotone; lra)
      end
  end;
  try match goal with
  | |- context [easeInOutQuint ?a] =>
      match goal with
      | |- context [easeInOutQuint ?b] =>
          tryif constr_eq a b then fail
          else assert (easeInOutQuint a <= easeInOutQuint b)
                 by (apply easeInOutQuint_monotone; lra)
      end
  end.

Lemma rocketY_ascends (p1 p2 : R) :
  p1 <= p2 -> p2 <= 0.94 ->
  rocketY (animatePhases p1 0 initialScene) <= rocketY (animatePhases p2 0 initialScene).
Proof.
  intros H12 H2.
  by_phase p1 0 initialScene; by_phase p2 0 initialScene; try (exfalso; lra);
    unfold_phases_all; unfold_consts; unfold lerp; ease_range; ease_order; lra.
Qed.

Lemma rocketY_descends_in_orbit (p1 p2 : R) :
  0.94 < p1 -> p1 <= p2 ->
  rocketY (animatePhases p2 0 initialScene) <= rocketY (animatePhases p1 0 initialScene).
Proof.
  intros H1 H12.
  by_phase p1 0 initialScene; by_phase p2 0 initialScene; try (exfalso; lra).
  unfold_phases_all; unfold_consts; unfold lerp.
  assert (easeInOutCubic ((p1 - 0.94) / 0.06) <= easeInOutCubic ((p2 - 0.94) / 0.06))
    by (apply easeInOutCubic_monotone; lra).
  lra.
Qed.

Lemma rocketY_bounds (p : R) :
  p <= 1 ->
  0 <= rocketY (animatePhases p 0 initialScene) <= 653 /\
  (0.94 < p -> 633 <= rocketY (animatePhases p 0 initialScene)).
Proof.
  intros Hp.
  by_phase p 0 initialScene; try (exfalso; lra);
    unfold_phases_all; unfold_consts; unfold lerp; ease_range; lra.
Qed.

(** X2: scrolling forward never lowers the rocket up to the end of fairing
    separation: the height a tick writes is nondecreasing in the progress
    for [p <= 0.94], whatever the scene and the frame time.  In the orbital
    branch it is nonincreasing.  For every [p <= 1] the height lies in
    [[0, 653]], the maximum 653 being written at [p = 0.94], and in the
    orbital branch it stays at or above 633. *)
Theorem rocket_height_profile (p1 p2 dt1 dt2 : R) (s1 s2 : Scene) :
  p1 <= p2 ->
  (p2 <= 0.94 ->
     rocketY (animatePhases p1 dt1 s1) <= rocketY (animatePhases p2 dt2 s2)) /\
  (0.94 < p1 ->
     rocketY (animatePhases p2 dt2 s2) <= rocketY (animatePhases p1 dt1 s1)) /\
  (p2 <= 1 ->
     0 <= rocketY (animatePhases p2 dt2 s2) <= 653 /\
     (0.94 < p2 -> 633 <= rocketY (animatePhases p2 dt2 s2))) /\
  rocketY (animatePhases 0.94 dt1 s1) = 653.
Proof.
  intros H12.
  rewrite (rocketY_pure p1 dt1 0 s1 initialScene), (rocketY_pure p2 dt2 0 s2 initialScene),
          (rocketY_pure 0.94 dt1 0 s1 initialScene).
  split; [intros H; apply rocketY_ascends; assumption | ].
  split; [intros H; apply rocketY_descends_in_orbit; assumption | ].
  split; [intros H; apply rocketY_bounds; assumption | ].
  by_phase 0.94 0 initialScene; try (exfalso; lra).
  unfold_phases_all; unfold_consts.
  replace ((0.94 - 0.84) / 0.10) with 1 by lra.
  rewrite easeInOutCubic_1, lerp_1. lra.
Qed.

Lemma rocket_height_profile_witness :
  rocketY (animatePhases 0.2 0 initialScene) <= rocketY (animatePhases 0.8 0 initialScene) /\
  rocketY (animatePhases 1 0 initialScene) <= rocketY (animatePhases 0.95 0 initialScene).
Proof.
  split.
  - apply (rocket_height_profile 0.2 0.8 0 0 initialScene initialScene); lra.
  - apply (rocket_height_profile 0.95 1 0 0 initialScene initialScene); lra.
Defined.

(** ** Telemetry ranges *)

(** X3: for every progress up to 1 (and below 0) the telemetry a tick
    reports is within fixed bounds: the altitude lies in [[0, 3015]] and the
    velocity in [[0, 27.6]]; the velocity reaches 27.6 at the end of fairing
    separation and holds it in orbit, where the altitude is the constant 375. *)
Theorem telemetry_bounds (p dt : R) (s : Scene) :
  p <= 1 ->
  0 <= altitude (mission (animatePhases p dt s)) <= 3015 /\
  0 <= velocity (mission (animatePhases p dt s)) <= 27.6 /\
  (0.94 < p ->
     altitude (mission (animatePhases p dt s)) = 375 /\
     velocity (mission (animatePhases p dt s)) = 27.6).
Proof.
  intros Hp.
  by_phase p dt s; try (exfalso; lra);
    unfold_phases; rewrite ?rocketPos_boosterPoses;
    cbn [vx vy vz rocketPos setRocketY setVisibility];
    unfold orbitRadius; unfold_consts; unfold lerp; ease_range;
    repeat split; intros; lra.
Qed.

Lemma telemetry_bounds_witness :
  0 <= velocity (mission (animatePhases 0.8 0 initialScene)) <= 27.6.
Proof.
  apply (telemetry_bounds 0.8 0 initialScene). lra.
Defined.

(** ** Scene visibility *)

Lemma Rltb_true (a b : R) : a < b -> Rltb a b = true.
Proof. intros H. unfold Rltb. destruct (Rlt_dec a b); [reflexivity | lra]. Qed.

Lemma Rltb_false (a b : R) : b <= a -> Rltb a b = false.
Proof. intros H. unfold Rltb. destruct (Rlt_dec a b); [lra | reflexivity]. Qed.

(** The cross-fade of the ascending branch, by the eased progress [e]: the
    ground is shown until the fade-out ramp reaches 0.98, the Earth once the
    fade-in ramp passes 0.02, the stars once it passes 0.12. *)
Lemma crossfade_flags (e : R) :
  let fadeOut := Rmax 0 (Rmin 1 ((e - 0.5) / 0.35)) in
  let fadeIn := Rmax 0 (Rmin 1 ((e - 0.05) / 0.5)) in
  (Rltb fadeOut 0.98 = true <-> e < 0.843) /\
  (Rltb 0.02 fadeIn = true <-> 0.06 < e) /\
  (Rltb 0.12 fadeIn = true <-> 0.11 < e).
Proof.
  cbv zeta. unfold Rltb, Rmax, Rmin.
  repeat split; intros H;
    repeat match goal with
    | |- context [Rle_dec ?a ?b] => destruct (Rle_dec a b)
    | |- context [Rlt_dec ?a ?b] => destruct (Rlt_dec a b)
    | H : context [Rle_dec ?a ?b] |- _ => destruct (Rle_dec a b)
    | H : context [Rlt_dec ?a ?b] |- _ => destruct (Rlt_dec a b)
    end; try reflexivity; try discriminate; try lra.
Qed.

(** X4: for every progress up to 0.94 a tick never leaves the stage empty:
    the ground scene or the Earth is shown, and the stars are never shown
    without the Earth.  Up to [p = 0.35] only the ground is shown; past
    [p = 0.50] only the Earth and the stars; in between the two scenes
    cross-fade by the eased progress [e]: ground while [e < 0.843], Earth
    once [e > 0.06], stars once [e > 0.11], so both scenes are shown
    together for [0.06 < e < 0.843]. *)
Theorem visibility_handoff (p dt : R) (s : Scene) :
  p <= 0.94 ->
  let s' := scene (animatePhases p dt s) in
  (groundVisible s' = true \/ earthVisible s' = true) /\
  (starsVisible s' = true -> earthVisible s' = true) /\
  (p <= 0.35 ->
     groundVisible s' = true /\ earthVisible s' = false /\ starsVisible s' = false) /\
  (0.50 < p ->
     groundVisible s' = false /\ earthVisible s' = true /\ starsVisible s' = true) /\
  (0.35 < p <= 0.50 ->
     let e := easeInOutQuint ((p - 0.35) / 0.15) in
     (groundVisible s' = true <-> e < 0.843) /\
     (earthVisible s' = true <-> 0.06 < e) /\
     (starsVisible s' = true <-> 0.11 < e)).
Proof.
  intros Hp. cbv zeta.
  by_phase p dt s; try (exfalso; lra); simpl_scene;
    try (repeat split; intros; try (left; reflexivity); try (right; reflexivity);
         try reflexivity; try discriminate; exfalso; lra).
  pose proof (crossfade_flags (easeInOutQuint ((p - 0.35) / 0.15))) as Hc.
  cbv zeta in Hc. destruct Hc as (Hg & He & Hs).
  split.
  { destruct (Rlt_dec (easeInOutQuint ((p - 0.35) / 0.15)) 0.843) as [Hlt|Hge].
    - left. apply Hg. exact Hlt.
    - right. apply He. lra. }
  split.
  { intros Hst. apply He. apply Hs in Hst. lra. }
  split; [intros; exfalso; lra | ].
  split; [intros; exfalso; lra | ].
  intros _. repeat split; first [apply Hg | apply He | apply Hs].
Qed.

Lemma visibility_handoff_witness :
  groundVisible (scene (animatePhases 0.2 0 initialScene)) = true /\
  earthVisible (scene (animatePhases 0.7 0 initialScene)) = true.
Proof.
  assert (H1 : 0.2 <= 0.94) by lra. assert (H2 : 0.7 <= 0.94) by lra.
  destruct (visibility_handoff 0.2 0 initialScene H1) as (_ & _ & Hg & _).
  destruct (visibility_handoff 0.7 0 initialScene H2) as (_ & _ & _ & He & _).
  split; [apply Hg; lra | apply He; lra].
Defined.

(** ** Runs of ticks *)

Lemma tick_satellite_visible (p dt : R) (s : Scene) :
  sat_visible (satellite (scene (animatePhases p dt s)))
    = (sat_visible (satellite s) || inFairingPhase p)%bool.
Proof.
  unfold inFairingPhase.
  by_phase p dt s; simpl_scene;
    destruct (Rle_dec p 0.84); try (exfalso; lra);
    destruct (Rle_dec p 0.94); try (exfalso; lra);
    rewrite ?orb_false_r, ?orb_true_r; reflexivity.
Qed.

Lemma tick_orbitTime (p dt : R) (s : Scene) :
  orbitTime (scene (animatePhases p dt s))
    = orbitTime s + (if Rle_dec p 0.94 then 0 else dt * 0.5).
Proof.
  by_phase p dt s; simpl_scene;
    destruct (Rle_dec p 0.94); try (exfalso; lra); lra.
Qed.

(** X5: over any run of ticks the satellite is shown at the end exactly
    when it was shown at the start or some tick had its progress in the
    fairing-separation branch ([0.84 < p <= 0.94]).  So once shown it is
    never hidden again, and a run that skips that branch (a jump from
    [p <= 0.84] straight past 0.94) leaves it hidden in orbit. *)
Theorem satellite_shown_over_run (ticks : list (R * R)) (s : Scene) :
  sat_visible (satellite (runTicks ticks s))
    = (sat_visible (satellite s) || existsb (fun t => inFairingPhase (fst t)) ticks)%bool.
Proof.
  revert s. induction ticks as [|[p dt] rest IH]; intros s; cbn [runTicks existsb fst].
  - rewrite orb_false_r. reflexivity.
  - rewrite IH, tick_satellite_visible, orb_assoc. reflexivity.
Qed.

(** X6: over any run of ticks the orbit accumulator grows by half the
    frame time of the ticks whose progress is past 0.94 and by nothing
    else: it is not reset when the orbital branch is left or entered again,
    and with non-negative frame times it never decreases. *)
Theorem orbit_accumulator_over_run (ticks : list (R * R)) (s : Scene) :
  orbitTime (runTicks ticks s) = orbitTime s + 0.5 * orbitalFrameTime ticks /\
  (Forall (fun t => 0 <= snd t) ticks -> orbitTime s <= orbitTime (runTicks ticks s)) /\
  (Forall (fun t => fst t <= 0.94) ticks -> orbitTime (runTicks ticks s) = orbitTime s).
Proof.
  assert (Hsum : forall ticks s,
             orbitTime (runTicks ticks s) = orbitTime s + 0.5 * orbitalFrameTime ticks).
  { clear. intros ticks. induction ticks as [|[p dt] rest IH]; intros s;
      cbn [runTicks orbitalFrameTime].
    - lra.
    - rewrite IH, tick_orbitTime. destruct (Rle_dec p 0.94); lra. }
  split; [apply Hsum | ]. rewrite Hsum. split.
  - intros Hdt.
    assert (0 <= orbitalFrameTime ticks).
    { induction Hdt as [|[p dt] rest Hd Hrest IH]; cbn [orbitalFrameTime]; [lra | ].
      cbn [snd] in Hd. destruct (Rle_dec p 0.94); lra. }
    lra.
  - intros Hp.
    assert (orbitalFrameTime ticks = 0).
    { induction Hp as [|[p dt] rest Hd Hrest IH]; cbn [orbitalFrameTime]; [reflexivity | ].
      cbn [fst] in Hd. destruct (Rle_dec p 0.94); [exact IH | exfalso; lra]. }
    lra.
Qed.

(** Into orbit for two seconds, back to the ascent, into orbit for one
    more second: the accumulator ends at 1.5. *)
Lemma orbit_accumulator_over_run_witness :
  orbitTime initialScene
    <= orbitTime (runTicks [(0.96, 2); (0.8, 5); (0.97, 1)] initialScene).
Proof.
  apply (orbit_accumulator_over_run [(0.96, 2); (0.8, 5); (0.97, 1)] initialScene).
  repeat constructor; cbn; lra.
Defined.

(** ** Booster separation *)

(** The separation progress past the [stageSep] threshold lies in [(0, 1]]. *)
Lemma sepProg_range (e : R) :
  stageSep < e -> e <= 1 -> 0 < (e - stageSep) / (1 - stageSep) <= 1.
Proof.
  unfold stageSep. intros H0 H1. replace (1 - 0.3) with 0.7 by lra.
  pose proof (local_progress e 0.3 0.7). lra.
Qed.

Lemma booster_x_outward (q : R) :
  0 <= q <= 1 ->
  -50 <= lerp (-3.5) (-20 - q * 30) q <= -3.5 /\
  lerp 3.5 (20 + q * 30) q = - lerp (-3.5) (-20 - q * 30) q.
Proof. intros Hq. unfold lerp. split; [split; nra | nra]. Qed.

Lemma booster_x_monotone (q1 q2 : R) :
  0 <= q1 -> q1 <= q2 ->
  lerp (-3.5) (-20 - q2 * 30) q2 <= lerp (-3.5) (-20 - q1 * 30) q1.
Proof. intros H0 H12. unfold lerp. nra. Qed.

(** X7: a tick of the ascent branch ([0.72 < p <= 0.84]) poses the two
    boosters as mirror images: opposite x, equal y, opposite roll.  While
    the eased progress is at most [stageSep = 0.3] they are held at
    [(∓3.5, 0, -2)] with no roll.  Past it they only move outward and down:
    booster 0 has x in [[-50, -3.5]], y in [[-10, 0]] and roll in
    [[-0.3, 0]], its depth z is left as the scene had it, and scrolling
    forward never brings it back inward. *)
Theorem booster_separation_geometry (p dt : R) (s : Scene) :
  0.72 < p <= 0.84 ->
  let e := easeInOutCubic ((p - 0.72) / 0.12) in
  let s' := scene (animatePhases p dt s) in
  (vx (b_pos (booster1 s')) = - vx (b_pos (booster0 s')) /\
   vy (b_pos (booster1 s')) = vy (b_pos (booster0 s')) /\
   b_rotz (booster1 s') = - b_rotz (booster0 s')) /\
  (e <= stageSep ->
     booster0 s' = mkBooster (mkVec3 (-3.5) 0 (-2)) 0 /\
     booster1 s' = mkBooster (mkVec3 3.5 0 (-2)) 0) /\
  (stageSep < e ->
     -50 <= vx (b_pos (booster0 s')) <= -3.5 /\
     -10 <= vy (b_pos (booster0 s')) <= 0 /\
     -0.3 <= b_rotz (booster0 s') <= 0 /\
     vz (b_pos (booster0 s')) = vz (b_pos (booster0 s)) /\
     vz (b_pos (booster1 s')) = vz (b_pos (booster1 s))) /\
  (forall p' dt' s0,
     p <= p' <= 0.84 ->
     stageSep < e ->
     vx (b_pos (booster0 (scene (animatePhases p' dt' s0)))) <= vx (b_pos (booster0 s'))).
Proof.
  intros Hp. cbv zeta.
  assert (He : 0 <= easeInOutCubic ((p - 0.72) / 0.12) <= 1)
    by (apply easeInOutCubic_range; lra).
  by_phase p dt s; try (exfalso; lra). unfold_phases. unfold boosterPoses.
  destruct (Rlt_dec stageSep (easeInOutCubic ((p - 0.72) / 0.12))) as [Hsep|Hsep];
    project_scene.
  - pose proof (sepProg_range _ Hsep (proj2 He)) as Hq.
    set (q := (easeInOutCubic ((p - 0.72) / 0.12) - stageSep) / (1 - stageSep)) in *.
    destruct (booster_x_outward q) as [Hx Hmirror]; [lra | ].
    split; [repeat split; [exact Hmirror | unfold lerp; lra] | ].
    split; [intros; exfalso; lra | ].
    split; [intros _; repeat split; try lra; unfold lerp; nra | ].
    intros p' dt' s0 Hp' _.
    by_phase p' dt' s0; try (exfalso; lra). unfold_phases. unfold boosterPoses.
    assert (Hmono : easeInOutCubic ((p - 0.72) / 0.12) <= easeInOutCubic ((p' - 0.72) / 0.12))
      by (apply easeInOutCubic_monotone; lra).
    assert (He' : 0 <= easeInOutCubic ((p' - 0.72) / 0.12) <= 1)
      by (apply easeInOutCubic_range; lra).
    destruct (Rlt_dec stageSep (easeInOutCubic ((p' - 0.72) / 0.12))) as [Hsep'|Hsep'];
      [ | exfalso; lra].
    project_scene. apply booster_x_monotone; [fold q; lra | ].
    fold q. unfold q, stageSep in *. replace (1 - 0.3) with 0.7 by lra. lra.
  - split; [repeat split; lra | ].
    split; [intros _; split; reflexivity | ].
    split; intros; exfalso; lra.
Qed.

Lemma booster_separation_geometry_witness :
  vx (b_pos (booster1 (scene (animatePhases 0.8 0 initialScene))))
    = - vx (b_pos (booster0 (scene (animatePhases 0.8 0 initialScene)))).
Proof.
  assert (H : 0.72 < 0.8 <= 0.84) by lra.
  destruct (booster_separation_geometry 0.8 0 initialScene H) as ((Hx & _) & _).
  exact Hx.
Defined.

(** ** Fairing separation *)

(** X8: a tick of the fairing branch ([0.84 < p <= 0.94]) opens the two
    halves as mirror images, the left one to an x in [[-5, 0]] with a roll
    in [[-0.2, 0]], further open the larger the progress; it always leaves
    the satellite shown; a satellite that was hidden is placed 30 above the
    rocket height just written, and one that was already shown is left
    where it was, so it does not follow the rocket through the phase. *)
Theorem fairing_separation_geometry (p dt : R) (s : Scene) :
  0.84 < p <= 0.94 ->
  let s' := scene (animatePhases p dt s) in
  (f_posx (fairingR s') = - f_posx (fairingL s') /\
   f_rotz (fairingR s') = - f_rotz (fairingL s')) /\
  (-5 <= f_posx (fairingL s') <= 0 /\ -0.2 <= f_rotz (fairingL s') <= 0) /\
  (forall p' dt' s0, p <= p' <= 0.94 ->
     f_posx (fairingL (scene (animatePhases p' dt' s0))) <= f_posx (fairingL s')) /\
  sat_visible (satellite s') = true /\
  (sat_visible (satellite s) = false ->
     sat_pos (satellite s')
       = mkVec3 (vx (rocketPos s)) (vy (rocketPos s') + 30) (vz (rocketPos s))) /\
  (sat_visible (satellite s) = true -> satellite s' = satellite s).
Proof.
  intros Hp. cbv zeta.
  assert (He : 0 <= easeInOutCubic ((p - 0.84) / 0.10) <= 1)
    by (apply easeInOutCubic_range; lra).
  by_phase p dt s; try (exfalso; lra).
  split; [simpl_scene; unfold lerp; split; lra | ].
  split; [simpl_scene; unfold lerp; lra | ].
  split.
  { intros p' dt' s0 Hp'. by_phase p' dt' s0; try (exfalso; lra). simpl_scene.
    assert (easeInOutCubic ((p - 0.84) / 0.10) <= easeInOutCubic ((p' - 0.84) / 0.10))
      by (apply easeInOutCubic_monotone; lra).
    unfold lerp. lra. }
  split; [simpl_scene; reflexivity | ].
  split.
  - intros Hv. unfold_phases. unfold revealSatellite. project_scene.
    rewrite Hv. project_scene. reflexivity.
  - intros Hv. unfold_phases. rewrite rs_satellite_shown; project_scene;
      [reflexivity | exact Hv].
Qed.

Lemma fairing_separation_geometry_witness :
  sat_pos (satellite (scene (animatePhases 0.9 0 initialScene)))
    = mkVec3 0 (vy (rocketPos (scene (animatePhases 0.9 0 initialScene))) + 30) 0.
Proof.
  assert (H : 0.84 < 0.9 <= 0.94) by lra.
  destruct (fairing_separation_geometry 0.9 0 initialScene H) as (_ & _ & _ & _ & Hpos & _).
  apply Hpos. reflexivity.
Defined.

(** ** Attitude in orbit *)

(** X9: a tick of the orbital branch ([p > 0.94]) turns the satellite to
    its direction of travel (yaw a quarter turn ahead of the orbit angle,
    pitch within [±0.15]) and folds the two panels as mirror images, the
    first one to an angle in [[0, π/2]]; from [p = 0.97] on (and for any
    larger progress) both panels are fully deployed at angle 0. *)
Theorem orbital_attitude (p dt : R) (s : Scene) :
  0.94 < p ->
  let s' := scene (animatePhases p dt s) in
  sat_roty (satellite s') = orbitTime s' + PI / 2 /\
  -0.15 <= sat_rotx (satellite s') <= 0.15 /\
  panel1 s' = - panel0 s' /\
  0 <= panel0 s' <= PI / 2 /\
  (0.97 <= p -> panel0 s' = 0 /\ panel1 s' = 0).
Proof.
  intros Hp. cbv zeta.
  by_phase p dt s; try (exfalso; lra). simpl_scene.
  pose proof PI_RGT_0 as Hpi.
  split; [reflexivity | ].
  split; [pose proof (SIN_bound (orbitTime s + dt * 0.5)); lra | ].
  split; [unfold lerp; lra | ].
  assert (He : 0 <= easeInOutCubic ((p - 0.94) / 0.06)).
  { pose proof (easeInOutCubic_monotone 0 ((p - 0.94) / 0.06)) as Hm.
    rewrite easeInOutCubic_0 in Hm. apply Hm. lra. }
  assert (Hmin : 0 <= Rmin 1 (easeInOutCubic ((p - 0.94) / 0.06) * 3) <= 1).
  { split; [apply Rmin_glb; lra | apply Rmin_l]. }
  split; [unfold lerp; nra | ].
  intros H97.
  assert (0.5 <= easeInOutCubic ((p - 0.94) / 0.06)).
  { pose proof (easeInOutCubic_monotone 0.5 ((p - 0.94) / 0.06)) as Hm.
    rewrite (easeInOutCubic_hi 0.5) in Hm by lra. lra. }
  rewrite Rmin_left by lra. rewrite !lerp_1. split; reflexivity.
Qed.

Lemma orbital_attitude_witness :
  panel0 (scene (animatePhases 1 0 initialScene)) = 0.
Proof.
  assert (H : 0.94 < 1) by lra.
  destruct (orbital_attitude 1 0 initialScene H) as (_ & _ & _ & _ & Hp).
  apply Hp. lra.
Defined.

(** ** The cinematic camera chain *)

(** Decides the comparisons of the goal one at a time. *)
Ltac decide_thresholds :=
  repeat match goal with
  | |- context [Rle_dec ?a ?c] =>
      destruct (Rle_dec a c); cbv iota; try (exfalso; lra)
  end.

(** Bounds an eased progress near the start or the end of its segment. *)
Ltac ease_near :=
  repeat match goal with
  | |- context [easeInOutCubic ?t] =>
      lazymatch goal with
      | _ : _ <= easeInOutCubic t <= _ |- _ => fail
      | _ => first [ assert (0 <= easeInOutCubic t <= t)
                       by (apply easeInOutCubic_near_0; lra)
                   | assert (t <= easeInOutCubic t <= 1)
                       by (apply easeInOutCubic_near_1; lra) ]
      end
  | |- context [easeInOutQuint ?t] =>
      lazymatch goal with
      | _ : _ <= easeInOutQuint t <= _ |- _ => fail
      | _ => first [ assert (0 <= easeInOutQuint t <= t)
                       by (apply easeInOutQuint_near_0; lra)
                   | assert (t <= easeInOutQuint t <= 1)
                       by (apply easeInOutQuint_near_1; lra) ]
      end
  end.

Lemma cameraTarget_near_boundary (l : bool -> Vec3 -> Vec3)
      (b p : R) (o o' : PhaseOut) :
  In b cameraBoundaries -> -0.01 < p - b < 0.01 ->
  within (2800 * Rabs (p - b))
         (fst (cameraTarget l cinematic p o)) (fst (cameraTarget l cinematic b o')) /\
  within (2800 * Rabs (p - b))
         (snd (cameraTarget l cinematic p o)) (snd (cameraTarget l cinematic b o')).
Proof.
  intros Hb Hp. unfold cameraBoundaries in Hb. cbn [In] in Hb.
  destruct Hb as [<-|[<-|[<-|[<-|[<-|[<-|[<-|[]]]]]]]];
    unfold cameraTarget; decide_thresholds;
    cbv zeta; unfold within, lerpVectors, lerp; cbn [fst snd vx vy vz];
    unfold_consts; ease_near;
    repeat split; solve_abs.
Qed.

(** X10: the camera's keyframe chain is continuous in the progress: at each
    of the switches 0.05, 0.10, 0.35, 0.38, 0.42, 0.46 and, in cinematic
    mode, at the hand-over 0.51, the target position and the look-at point
    computed within 0.01 of the switch differ from those at the switch by at
    most 2800 times the distance in progress, in every coordinate; for
    [p <= 0.51] the targets do not depend on the camera mode, the scene or
    the subject. *)
Theorem camera_chain_continuous (l : bool -> Vec3 -> Vec3)
        (b p : R) (o o' : PhaseOut) :
  (In b cameraBoundaries -> -0.01 < p - b < 0.01 ->
   within (2800 * Rabs (p - b))
          (fst (cameraTarget l cinematic p o)) (fst (cameraTarget l cinematic b o')) /\
   within (2800 * Rabs (p - b))
          (snd (cameraTarget l cinematic p o)) (snd (cameraTarget l cinematic b o'))) /\
  (p <= 0.51 ->
   forall l' mode mode', cameraTarget l mode p o = cameraTarget l' mode' p o').
Proof.
  split; [apply cameraTarget_near_boundary | ].
  intros Hp l' mode mode'. unfold cameraTarget.
  decide_thresholds; reflexivity.
Qed.

Lemma camera_chain_continuous_witness :
  within (2800 * Rabs (0.352 - 0.35))
         (fst (cameraTarget (fun _ v => v) cinematic 0.352 (animatePhases 0.352 0 initialScene)))
         (fst (cameraTarget (fun _ v => v) cinematic 0.35 (animatePhases 0.35 0 initialScene))).
Proof.
  apply (camera_chain_continuous (fun _ v => v) 0.35 0.352
           (animatePhases 0.352 0 initialScene) (animatePhases 0.35 0 initialScene)).
  - unfold cameraBoundaries. right; right; left; reflexivity.
  - lra.
Defined.

(** ** Render attributes and motion of the particles *)

Lemma ratio_range (a l : R) : 0 < l -> 0 <= a <= l -> 0 <= a / l <= 1.
Proof.
  intros Hl Ha.
  assert (Hi : 0 < / l) by (apply Rinv_0_lt_compat; exact Hl).
  assert (Hone : l * / l = 1) by (field; lra).
  unfold Rdiv. split; nra.
Qed.

Lemma aliveCount_all_alive (pool : Pool) :
  Forall (fun ps => ~ dead (fst ps)) pool -> aliveCount pool = List.length pool.
Proof.
  unfold aliveCount. induction 1 as [|ps rest Hd Hrest IH]; cbn [filter List.length].
  - reflexivity.
  - unfold dead in Hd. unfold alive at 1. unfold Rleb.
    destruct (Rle_dec (age (fst ps)) (lifetime (fst ps))); [ | exfalso; lra].
    cbn [List.length]. rewrite IH. reflexivity.
Qed.

Section PlumeFacts.

Variable random : nat -> R.
Variables colorHot colorWarm colorCool : Vec3.

Abbreviation step1 := (updateParticle random colorHot colorWarm colorCool).
Abbreviation sweep1 := (updateExhaust random colorHot colorWarm colorCool).
Abbreviation run1 := (runExhaust random colorHot colorWarm colorCool).

Lemma step_spawnState (dt i : R) (ps : Particle * Slot) (k : nat) :
  unitDraws random -> 0 <= dt ->
  spawnState (fst ps) -> spawnState (fst (fst (step1 dt i ps k))).
Proof.
  intros Hr Hdt Hs. unfold spawnState in *.
  destruct (Rlt_dec (lifetime (fst ps)) (age (fst ps) + dt)) as [Hlt|Hge].
  - destruct (Rlt_dec (random k) i) as [Hd|Hd].
    + rewrite updateParticle_respawned by assumption.
      destruct (respawn_ranges random (S k) Hr) as (Ha' & Hl' & _).
      cbn [fst integrate age lifetime]. right. lra.
    + rewrite updateParticle_hidden by lra. cbn [fst age lifetime]. lra.
  - rewrite updateParticle_in_flight by lra.
    cbn [fst integrate age lifetime]. lra.
Qed.

(** What a loop iteration leaves in the slot of a particle that is not past
    its lifetime. *)
Lemma step_render (dt i : R) (ps : Particle * Slot) (k : nat) :
  unitDraws random -> 0 <= dt -> 0 <= i <= 1 ->
  spawnState (fst ps) ->
  let r := fst (step1 dt i ps k) in
  ~ dead (fst r) ->
  0.8 <= lifetime (fst r) /\
  0 <= age (fst r) <= lifetime (fst r) /\
  slot_pos (snd r) = p_pos (fst r) /\
  0 <= slot_alpha (snd r) <= i /\
  5 * i <= slot_size (snd r) <= 20 * i.
Proof.
  intros Hr Hdt Hi Hs. cbv zeta. unfold dead, spawnState in *.
  assert (Hattr : forall q : Particle,
             0.8 <= lifetime q -> 0 <= age q <= lifetime q ->
             0 <= slot_alpha (snd (integrate colorHot colorWarm colorCool dt i q)) <= i /\
             5 * i <= slot_size (snd (integrate colorHot colorWarm colorCool dt i q)) <= 20 * i).
  { intros q Hl Ha. cbn [integrate snd slot_alpha slot_size].
    pose proof (ratio_range (age q) (lifetime q)) as Hq.
    set (x := age q / lifetime q) in *.
    assert (Hx : 0 <= x <= 1) by (apply Hq; lra).
    assert (Hxx : 0 <= x * x <= 1) by nra.
    unfold lerp. replace (x ^ 2) with (x * x) by ring. split; split; nra. }
  destruct (Rlt_dec (lifetime (fst ps)) (age (fst ps) + dt)) as [Hlt|Hge].
  - destruct (Rlt_dec (random k) i) as [Hd|Hd].
    + rewrite updateParticle_respawned by assumption.
      destruct (respawn_ranges random (S k) Hr) as (Ha' & Hl' & _).
      intros _. cbn [fst].
      destruct (Hattr (respawn random (S k))) as [Halpha Hsize]; [lra | lra | ].
      cbn [integrate fst snd age lifetime slot_pos p_pos] in *.
      repeat split; try lra; try apply Halpha; try apply Hsize.
    + rewrite updateParticle_hidden by lra. cbn [fst age lifetime]. intros Hnd.
      exfalso. lra.
  - rewrite updateParticle_in_flight by lra. intros _. cbn [fst].
    set (q := mkParticle (p_pos (fst ps)) (p_vel (fst ps)) (age (fst ps) + dt)
                         (lifetime (fst ps))).
    assert (Hl : 0.8 <= lifetime q) by (cbn; lra).
    assert (Ha : 0 <= age q <= lifetime q) by (cbn; lra).
    destruct (Hattr q Hl Ha) as [Halpha Hsize].
    cbn [integrate fst snd age lifetime slot_pos p_pos] in *.
    repeat split; try lra; try apply Halpha; try apply Hsize.
Qed.

Lemma step_plumeState (dt i : R) (ps : Particle * Slot) (k : nat) :
  unitDraws random -> 0 <= dt ->
  plumeState (fst ps) -> plumeState (fst (fst (step1 dt i ps k))).
Proof.
  intros Hr Hdt (Hvy & Hvx & Hvz & Hy). unfold plumeState.
  destruct (Rlt_dec (lifetime (fst ps)) (age (fst ps) + dt)) as [Hlt|Hge].
  - destruct (Rlt_dec (random k) i) as [Hd|Hd].
    + rewrite updateParticle_respawned by assumption.
      destruct (respawn_ranges random (S k) Hr)
        as (_ & _ & _ & Hy0 & _ & Hwx & Hwy & Hwz).
      cbn [fst integrate p_vel p_pos vx vy vz]. rewrite Hy0.
      repeat split; try lra; nra.
    + rewrite updateParticle_hidden by lra. cbn [fst p_vel p_pos]. repeat split; lra.
  - rewrite updateParticle_in_flight by lra.
    cbn [fst integrate p_vel p_pos vx vy vz]. repeat split; try lra; nra.
Qed.

Lemma sweep_invariant (Q : Particle -> Prop) (dt i : R) :
  (forall ps k, Q (fst ps) -> Q (fst (fst (step1 dt i ps k)))) ->
  forall pool k,
    Forall (fun ps => Q (fst ps)) pool ->
    Forall (fun ps => Q (fst ps)) (fst (sweep1 dt i pool k)).
Proof.
  intros HQ pool k Hpool. revert k.
  induction Hpool as [|ps rest Hps Hrest IH]; intros k; cbn [updateExhaust fst].
  - constructor.
  - constructor; [apply HQ; exact Hps | apply IH].
Qed.

Lemma run_invariant (Q : Particle -> Prop) (calls : list (R * R)) :
  (forall dt i ps k, 0 <= dt -> Q (fst ps) -> Q (fst (fst (step1 dt i ps k)))) ->
  Forall (fun c => 0 <= fst c) calls ->
  forall pool k,
    Forall (fun ps => Q (fst ps)) pool ->
    Forall (fun ps => Q (fst ps)) (fst (run1 calls pool k)).
Proof.
  intros HQ Hcalls.
  induction Hcalls as [|[dt i] rest Hdt Hrest IH]; intros pool k Hpool; cbn [runExhaust].
  - exact Hpool.
  - apply IH. apply sweep_invariant; [ | exact Hpool].
    intros ps k'. apply HQ. exact Hdt.
Qed.

Lemma initialPool_spawnState : Forall (fun ps => spawnState (fst ps)) initialPool.
Proof.
  apply Forall_forall. intros ps Hin. unfold initialPool in Hin.
  apply repeat_spec in Hin. subst ps. left. cbn. split; [reflexivity | lra].
Qed.

Lemma initialPool_plumeState : Forall (fun ps => plumeState (fst ps)) initialPool.
Proof.
  apply Forall_forall. intros ps Hin. unfold initialPool in Hin.
  apply repeat_spec in Hin. subst ps. unfold plumeState. cbn. lra.
Qed.

(** X11: after any run of calls on the initial pool (non-negative frame
    times, draws in [[0, 1)]) followed by a call with an intensity in
    [[0, 1]], every particle that is not past its lifetime has a lifetime of
    at least 0.8, so its age ratio is a quotient by a non-zero lifetime and
    lies in [[0, 1]]; its rendered position is its own position, its
    opacity lies in [[0, intensity]] and its point size in
    [[5 * intensity, 20 * intensity]]. *)
Theorem exhaust_render_attributes (calls : list (R * R)) (dt i : R) (k k' : nat) :
  unitDraws random ->
  Forall (fun c => 0 <= fst c) calls -> 0 <= dt -> 0 <= i <= 1 ->
  Forall (fun ps =>
            ~ dead (fst ps) ->
            0.8 <= lifetime (fst ps) /\
            0 <= age (fst ps) / lifetime (fst ps) <= 1 /\
            slot_pos (snd ps) = p_pos (fst ps) /\
            0 <= slot_alpha (snd ps) <= i /\
            5 * i <= slot_size (snd ps) <= 20 * i)
         (fst (sweep1 dt i (fst (run1 calls initialPool k)) k')).
Proof.
  intros Hr Hcalls Hdt Hi.
  assert (Hinv : Forall (fun ps => spawnState (fst ps)) (fst (run1 calls initialPool k))).
  { apply run_invariant; [ | exact Hcalls | apply initialPool_spawnState].
    intros dt0 i0 ps k0 Hdt0. apply step_spawnState; assumption. }
  revert k'. induction Hinv as [|ps rest Hps Hrest IH]; intros k'; cbn [updateExhaust fst].
  - constructor.
  - constructor; [ | apply IH].
    intros Hnd.
    destruct (step_render dt i ps k' Hr Hdt Hi Hps Hnd) as (Hl & Ha & Hpos & Halpha & Hsize).
    repeat split; try assumption; try apply Halpha; try apply Hsize;
      apply ratio_range; lra.
Qed.

(** X12: the plume never rises: in every pool the initial pool can become by
    calls with non-negative frame times, whatever the intensities, each
    particle has a vertical velocity in [[-80, 0]], horizontal velocity
    components within 4, and a position at or below the emitter. *)
Theorem plume_points_down (calls : list (R * R)) (k : nat) :
  unitDraws random ->
  Forall (fun c => 0 <= fst c) calls ->
  Forall (fun ps => plumeState (fst ps)) (fst (run1 calls initialPool k)).
Proof.
  intros Hr Hcalls.
  apply run_invariant; [ | exact Hcalls | apply initialPool_plumeState].
  intros dt i ps k0 Hdt. apply step_plumeState; assumption.
Qed.

(** X13: at an intensity of 1 or more every draw is below the intensity, so
    each call respawns every expired particle at once: after the call no
    particle of the pool is past its lifetime, whatever the pool and the
    frame time were, and the number of alive particles is the pool size. *)
Theorem full_intensity_all_alive (dt i : R) (pool : Pool) (k : nat) :
  unitDraws random -> 1 <= i ->
  Forall (fun ps => ~ dead (fst ps)) (fst (sweep1 dt i pool k)) /\
  aliveCount (fst (sweep1 dt i pool k)) = List.length pool.
Proof.
  intros Hr Hi.
  assert (Hall : Forall (fun ps => ~ dead (fst ps)) (fst (sweep1 dt i pool k))).
  { apply sweep_Forall. intros ps k'. unfold dead.
    destruct (Rlt_dec (lifetime (fst ps)) (age (fst ps) + dt)) as [Hlt|Hge].
    - rewrite updateParticle_respawned; [ | exact Hlt | pose proof (Hr k'); lra].
      destruct (respawn_ranges random (S k') Hr) as (Ha & Hl & _).
      cbn [fst integrate age lifetime]. lra.
    - rewrite updateParticle_in_flight by lra. cbn [fst integrate age lifetime]. lra. }
  split; [exact Hall | ].
  rewrite aliveCount_all_alive by exact Hall. apply sweep_length.
Qed.

End PlumeFacts.

Lemma exhaust_render_attributes_witness :
  Forall (fun ps =>
            ~ dead (fst ps) ->
            0.8 <= lifetime (fst ps) /\
            0 <= age (fst ps) / lifetime (fst ps) <= 1 /\
            slot_pos (snd ps) = p_pos (fst ps) /\
            0 <= slot_alpha (snd ps) <= 0.7 /\
            5 * 0.7 <= slot_size (snd ps) <= 20 * 0.7)
         (fst (updateExhaust (fun _ => 0.5) (mkVec3 0 0 0) (mkVec3 0 0 0) (mkVec3 0 0 0)
                 0.016 0.7
                 (fst (runExhaust (fun _ => 0.5) (mkVec3 0 0 0) (mkVec3 0 0 0) (mkVec3 0 0 0)
                         [(0.016, 1)] initialPool 0)) 0)).
Proof.
  apply (exhaust_render_attributes (fun _ => 0.5) (mkVec3 0 0 0) (mkVec3 0 0 0) (mkVec3 0 0 0)
           [(0.016, 1)] 0.016 0.7 0 0).
  - intros n. lra.
  - repeat constructor. cbn. lra.
  - lra.
  - lra.
Defined.

Lemma plume_points_down_witness :
  Forall (fun ps => plumeState (fst ps))
         (fst (runExhaust (fun _ => 0.5) (mkVec3 0 0 0) (mkVec3 0 0 0) (mkVec3 0 0 0)
                 [(0.016, 1); (0.016, 0.3)] initialPool 0)).
Proof.
  apply (plume_points_down (fun _ => 0.5) (mkVec3 0 0 0) (mkVec3 0 0 0) (mkVec3 0 0 0)
           [(0.016, 1); (0.016, 0.3)] 0).
  - intros n. lra.
  - repeat constructor; cbn; lra.
Defined.

Lemma full_intensity_all_alive_witness :
  aliveCount (fst (updateExhaust (fun _ => 0.5) (mkVec3 0 0 0) (mkVec3 0 0 0) (mkVec3 0 0 0)
                     0.016 1 initialPool 0)) = List.length initialPool.
Proof.
  apply (full_intensity_all_alive (fun _ => 0.5) (mkVec3 0 0 0) (mkVec3 0 0 0) (mkVec3 0 0 0)
           0.016 1 initialPool 0).
  - intros n. lra.
  - lra.
Defined.

(** ** The telemetry throttle *)

Lemma uiUpdates_spaced (times : list R) (last : R) : spaced 16 last (uiUpdates times last).
Proof.
  revert last. induction times as [|time rest IH]; intros last; cbn [uiUpdates].
  - exact I.
  - unfold uiUpdate. destruct (Rlt_dec 16 (time - last)); cbn [fst snd].
    + split; [assumption | apply IH].
    + apply IH.
Qed.

Lemma uiUpdates_incl (times : list R) (last : R) : incl (uiUpdates times last) times.
Proof.
  revert last. induction times as [|time rest IH]; intros last; cbn [uiUpdates].
  - apply incl_refl.
  - unfold uiUpdate. destruct (Rlt_dec 16 (time - last)); cbn [fst snd].
    + apply incl_cons; [left; reflexivity | apply incl_tl, IH].
    + apply incl_tl, IH.
Qed.

Lemma uiUpdates_all (times : list R) (last : R) :
  spaced 16 last times -> uiUpdates times last = times.
Proof.
  revert last. induction times as [|time rest IH]; intros last Hs; cbn [uiUpdates].
  - reflexivity.
  - destruct Hs as [Hgap Hrest]. unfold uiUpdate.
    destruct (Rlt_dec 16 (time - last)); [ | exfalso; lra]. cbn [fst snd].
    rewrite IH by exact Hrest. reflexivity.
Qed.

Lemma uiUpdates_none (times : list R) (last : R) :
  Forall (fun time => time - last <= 16) times -> uiUpdates times last = [].
Proof.
  induction 1 as [|time rest Ht Hrest IH]; cbn [uiUpdates]; [reflexivity | ].
  unfold uiUpdate. destruct (Rlt_dec 16 (time - last)); [exfalso; lra | ].
  cbn [fst snd]. exact IH.
Qed.

(** X14: whatever the timestamps of the frames, the frames that call
    [onSceneUpdate] are frames of the run and each is more than 16 ms after
    the previous one that did (the first more than 16 ms after the initial
    [lastUIUpdate]).  The throttle drops nothing when the frames themselves
    are more than 16 ms apart, as at 60 frames a second, and calls nothing
    while no frame is more than 16 ms past the last update. *)
Theorem ui_updates_throttled (times : list R) (last : R) :
  spaced 16 last (uiUpdates times last) /\
  incl (uiUpdates times last) times /\
  (spaced 16 last times -> uiUpdates times last = times) /\
  (Forall (fun time => time - last <= 16) times -> uiUpdates times last = []).
Proof.
  split; [apply uiUpdates_spaced | ].
  split; [apply uiUpdates_incl | ].
  split; [apply uiUpdates_all | apply uiUpdates_none].
Qed.

(** Three frames 16.7 ms apart all update the overlay. *)
Lemma ui_updates_throttled_witness :
  uiUpdates [16.7; 33.4; 50.1] 0 = [16.7; 33.4; 50.1].
Proof.
  apply (ui_updates_throttled [16.7; 33.4; 50.1] 0).
  cbn [spaced]. repeat split; lra.
Defined.

(** ** Scroll position *)

(** X15: on a page that can scroll ([scrollHeight > innerHeight]) the
    progress derived from the scroll position is the fraction of the
    scrollable height covered: it lies in [[0, 1]] exactly when the scroll
    position lies within the scrollable height, it grows with the scroll
    position, and an overscroll beyond either end gives a progress outside
    [[0, 1]]. *)
Theorem scroll_progress_range (scrollY scrollHeight innerHeight : R) :
  innerHeight < scrollHeight ->
  let p := progressOf (scrollPercentOf scrollY scrollHeight innerHeight) in
  p * (scrollHeight - innerHeight) = scrollY /\
  (0 <= p <= 1 <-> 0 <= scrollY <= scrollHeight - innerHeight) /\
  (forall scrollY', scrollY <= scrollY' ->
     p <= progressOf (scrollPercentOf scrollY' scrollHeight innerHeight)).
Proof.
  intros Hmax. cbv zeta. unfold progressOf, scrollPercentOf.
  set (m := scrollHeight - innerHeight).
  assert (Hm : 0 < m) by (unfold m; lra).
  assert (Hi : 0 < / m) by (apply Rinv_0_lt_compat; exact Hm).
  assert (Hone : m * / m = 1) by (field; lra).
  assert (Hp : forall y, y / m * 100 / 100 = y * / m) by (intros y; field; lra).
  rewrite Hp.
  split; [rewrite Rmult_assoc, (Rmult_comm (/ m)), Hone; ring | ].
  split.
  - split; intros [H0 H1]; split; nra.
  - intros y' Hy. rewrite Hp. nra.
Qed.

Lemma scroll_progress_range_witness :
  progressOf (scrollPercentOf 350 800 100) * (800 - 100) = 350.
Proof.
  apply (scroll_progress_range 350 800 100). lra.
Defined.

(** ** The countdown of the overlay *)

(** The floor of a real in [[0, 10)] is one of the ten digits. *)
Lemma floor_digit (x : R) :
  0 <= x < 10 -> (0 <= Int_part x <= 9)%Z.
Proof.
  intros [H0 H10]. destruct (base_Int_part x) as [Hle Hgt].
  assert (H1 : IZR (Int_part x) < IZR 10) by lra.
  assert (H2 : IZR (-1) < IZR (Int_part x)) by lra.
  apply lt_IZR in H1. apply lt_IZR in H2. lia.
Qed.

Lemma floor_monotone (x y : R) : x <= y -> (Int_part x <= Int_part y)%Z.
Proof.
  intros H. destruct (base_Int_part x) as [Hx _]. destruct (base_Int_part y) as [_ Hy].
  assert (H1 : IZR (Int_part x) < IZR (Int_part y + 1)) by (rewrite plus_IZR; lra).
  apply lt_IZR in H1. lia.
Qed.

(** The label shown for each value of the countdown. *)
Lemma countdown_label (n : Z) :
  (1 <= n <= 10)%Z ->
  nth_error ["T-00:00:10"; "T-00:00:09"; "T-00:00:08"; "T-00:00:07"; "T-00:00:06";
             "T-00:00:05"; "T-00:00:04"; "T-00:00:03"; "T-00:00:02"; "T-00:00:01"]
            (Z.to_nat (10 - n))
    = Some ("T-00:00:" ++ padStart 2 "0"%char (toString n)).
Proof.
  intros H.
  assert (Hn : (n = 1 \/ n = 2 \/ n = 3 \/ n = 4 \/ n = 5 \/
                n = 6 \/ n = 7 \/ n = 8 \/ n = 9 \/ n = 10)%Z) by lia.
  destruct Hn as [->|[->|[->|[->|[->|[->|[->|[->|[->| ->]]]]]]]]]; reflexivity.
Qed.

(** X16: the overlay shows "T-00:00:10" below 10 percent and "LIFTOFF" from
    25 percent on.  In between it shows "T-00:00:" followed by the two
    digits of a count [n = 10 - floor ((scrollPercent - 10) / 15 * 10)],
    which lies between 1 and 10, starts at 10, never increases with the
    scroll position and stays at 1 from 23.5 percent up to the switch to
    "LIFTOFF": the label "T-00:00:00" is never shown.  All the while the
    count is running (above 10 percent) the telemetry phase of the scene is
    already 'Ground Liftoff'. *)
Theorem countdown_display (scrollPercent : R) :
  (scrollPercent < 10 -> getCountdown scrollPercent = "T-00:00:10") /\
  (25 <= scrollPercent -> getCountdown scrollPercent = "LIFTOFF") /\
  (10 <= scrollPercent < 25 ->
     let n := (10 - Int_part ((scrollPercent - 10) / 15 * 10))%Z in
     (1 <= n <= 10)%Z /\
     getCountdown scrollPercent = "T-00:00:" ++ padStart 2 "0"%char (toString n) /\
     nth_error ["T-00:00:10"; "T-00:00:09"; "T-00:00:08"; "T-00:00:07"; "T-00:00:06";
                "T-00:00:05"; "T-00:00:04"; "T-00:00:03"; "T-00:00:02"; "T-00:00:01"]
               (Z.to_nat (10 - n))
       = Some (getCountdown scrollPercent) /\
     (scrollPercent < 11.5 -> n = 10%Z) /\
     (23.5 <= scrollPercent -> n = 1%Z) /\
     (forall scrollPercent', scrollPercent <= scrollPercent' < 25 ->
        (10 - Int_part ((scrollPercent' - 10) / 15 * 10) <= n)%Z)) /\
  (10 < scrollPercent < 25 ->
     forall dt s,
       phase (mission (animatePhases (progressOf scrollPercent) dt s)) = "Ground Liftoff").
Proof.
  split.
  { intros H. unfold getCountdown. destruct (Rlt_dec scrollPercent 10); [reflexivity | lra]. }
  split.
  { intros H. unfold getCountdown.
    destruct (Rlt_dec scrollPercent 10); [lra | ].
    destruct (Rlt_dec scrollPercent 25); [lra | reflexivity]. }
  split.
  { intros H. cbv zeta.
    set (x := (scrollPercent - 10) / 15 * 10).
    assert (Hx : 0 <= x < 10) by (unfold x; lra).
    pose proof (floor_digit x Hx) as Hz.
    assert (Hget : getCountdown scrollPercent
                   = "T-00:00:" ++ padStart 2 "0"%char (toString (10 - Int_part x))).
    { unfold getCountdown.
      destruct (Rlt_dec scrollPercent 10); [lra | ].
      destruct (Rlt_dec scrollPercent 25); [reflexivity | lra]. }
    split; [lia | ]. split; [exact Hget | ].
    split; [rewrite Hget; apply countdown_label; lia | ].
    split.
    { intros H1.
      destruct (base_Int_part x) as [Hle _].
      assert (Hlt : IZR (Int_part x) < IZR 1) by (unfold x in *; lra).
      apply lt_IZR in Hlt. lia. }
    split.
    { intros H1.
      destruct (base_Int_part x) as [_ Hgt].
      assert (Hlt : IZR 8 < IZR (Int_part x)) by (unfold x in *; lra).
      apply lt_IZR in Hlt. lia. }
    intros sp' Hsp'.
    pose proof (floor_monotone x ((sp' - 10) / 15 * 10)) as Hm.
    assert (Int_part x <= Int_part ((sp' - 10) / 15 * 10))%Z by (apply Hm; unfold x; lra).
    lia. }
  intros H dt s. unfold progressOf.
  by_phase (scrollPercent / 100) dt s; try (exfalso; lra). reflexivity.
Qed.

Lemma countdown_display_witness :
  getCountdown 5 = "T-00:00:10" /\ getCountdown 30 = "LIFTOFF" /\
  getCountdown 24 = "T-00:00:01".
Proof.
  destruct (countdown_display 5) as (H5 & _).
  destruct (countdown_display 30) as (_ & H30 & _).
  destruct (countdown_display 24) as (_ & _ & H24 & _).
  split; [apply H5; lra | ]. split; [apply H30; lra | ].
  assert (Hr : 10 <= 24 < 25) by lra.
  destruct (H24 Hr) as (_ & Hget & _ & _ & Hone & _).
  rewrite Hget, (Hone ltac:(lra)). reflexivity.
Defined.

(** ** Auto-scroll *)







(** ** The subject of the wide camera *)




(** ** The colour gradient of the exhaust *)

Section GradientFacts.

Variables colorHot colorWarm colorCool : Vec3.

Abbreviation integrate1 := (integrate colorHot colorWarm colorCool).

Lemma vlerp_0 (a b : Vec3) : vlerp a b 0 = a.
Proof. destruct a. unfold vlerp. cbn [vx vy vz]. f_equal; ring. Qed.

Lemma vlerp_1 (a b : Vec3) : vlerp a b 1 = b.
Proof. destruct b. unfold vlerp. cbn [vx vy vz]. f_equal; ring. Qed.

(** X19: the colour written for an integrated particle is a three-stop
    gradient in its age ratio: the hot colour at ratio 0, the warm colour at
    ratio 0.3, where the two blends meet, and the cool colour at ratio 1;
    below 0.3 every channel lies between the hot and the warm value, from
    0.3 to 1 between the warm and the cool value. *)
Theorem exhaust_colour_gradient (dt i : R) (q : Particle) :
  0 < lifetime q ->
  let c := slot_color (snd (integrate1 dt i q)) in
  (age q = 0 -> c = colorHot) /\
  (age q = 0.3 * lifetime q -> c = colorWarm) /\
  (age q = lifetime q -> c = colorCool) /\
  (0 <= age q < 0.3 * lifetime q ->
     Rmin (vx colorHot) (vx colorWarm) <= vx c <= Rmax (vx colorHot) (vx colorWarm) /\
     Rmin (vy colorHot) (vy colorWarm) <= vy c <= Rmax (vy colorHot) (vy colorWarm) /\
     Rmin (vz colorHot) (vz colorWarm) <= vz c <= Rmax (vz colorHot) (vz colorWarm)) /\
  (0.3 * lifetime q <= age q <= lifetime q ->
     Rmin (vx colorWarm) (vx colorCool) <= vx c <= Rmax (vx colorWarm) (vx colorCool) /\
     Rmin (vy colorWarm) (vy colorCool) <= vy c <= Rmax (vy colorWarm) (vy colorCool) /\
     Rmin (vz colorWarm) (vz colorCool) <= vz c <= Rmax (vz colorWarm) (vz colorCool)).
Proof.
  intros Hl. cbv zeta. cbn [integrate snd slot_color].
  assert (Hi : 0 < / lifetime q) by (apply Rinv_0_lt_compat; exact Hl).
  assert (Hone : lifetime q * / lifetime q = 1) by (field; lra).
  assert (Hblend : forall a b t, 0 <= t <= 1 ->
            Rmin a b <= a + (b - a) * t <= Rmax a b).
  { intros a b t Ht. unfold Rmin, Rmax. destruct (Rle_dec a b); split; nra. }
  set (x := age q / lifetime q).
  assert (Hx : x = age q * / lifetime q) by reflexivity.
  split.
  { intros H0. assert (x = 0) by (rewrite Hx, H0; ring).
    destruct (Rlt_dec x 0.3); [ | exfalso; lra].
    replace (x / 0.3) with 0 by lra. apply vlerp_0. }
  split.
  { intros H3. assert (x = 0.3) by (rewrite Hx, H3; nra).
    destruct (Rlt_dec x 0.3); [exfalso; lra | ].
    replace ((x - 0.3) / 0.7) with 0 by lra. apply vlerp_0. }
  split.
  { intros H1. assert (x = 1) by (rewrite Hx, H1; lra).
    destruct (Rlt_dec x 0.3); [exfalso; lra | ].
    replace ((x - 0.3) / 0.7) with 1 by lra. apply vlerp_1. }
  split.
  { intros [Ha0 Ha3]. assert (0 <= x < 0.3) by (rewrite Hx; split; nra).
    destruct (Rlt_dec x 0.3); [ | exfalso; lra].
    unfold vlerp. cbn [vx vy vz]. repeat split; apply Hblend; lra. }
  intros [Ha3 Ha1]. assert (0.3 <= x <= 1) by (rewrite Hx; split; nra).
  destruct (Rlt_dec x 0.3); [exfalso; lra | ].
  unfold vlerp. cbn [vx vy vz]. repeat split; apply Hblend; lra.
Qed.

End GradientFacts.

Lemma exhaust_colour_gradient_witness :
  slot_color (snd (integrate (mkVec3 0.7 0.8 1) (mkVec3 1 0.6 0) (mkVec3 0.7 0.1 0.1)
                             0.016 1
                             (mkParticle (mkVec3 0 0 0) (mkVec3 0 (-60) 0) 1 1)))
    = mkVec3 0.7 0.1 0.1.
Proof.
  assert (H : 0 < lifetime (mkParticle (mkVec3 0 0 0) (mkVec3 0 (-60) 0) 1 1))
    by (cbn; lra).
  destruct (exhaust_colour_gradient (mkVec3 0.7 0.8 1) (mkVec3 1 0.6 0) (mkVec3 0.7 0.1 0.1)
              0.016 1 _ H) as (_ & _ & Hcool & _).
  apply Hcool. reflexivity.
Defined.
